(** * sw-appcache-behavior: a shallow embedding of the service-worker runtime
      (src/sw-runtime.mjs) and of the window runtime (src/window-runtime.mjs)

    The two modules share three IndexedDB stores and the Cache Storage of
    the origin.  Both are written with [async]/[await]; here every
    asynchronous function is a computation in the monad [Async], which
    threads the shared [World] and completes either normally or abruptly
    (a thrown exception, i.e. a rejected promise).  Operations that the
    source starts together with [Promise.all] are all run, one after the
    other in the order of the array: a rejection of one does not stop the
    others, and the first rejection is the outcome.  The world after such
    a call is the world when every operation it started has settled.
    The operations started in this way reject with a [TypeError] only, so
    the outcome does not depend on which of them settles first. *)

From Stdlib Require Import String Ascii List Bool Arith ZArith Lia.
Import ListNotations.
Local Open Scope string_scope.
Local Open Scope list_scope.

Set Implicit Arguments.

(* ================================================================== *)
(** * Data model *)
(* ================================================================== *)

(** A parsed manifest, as produced by [makeManifestUrlsAbsolute]:
    [{cache: [...], network: [...], fallback: {prefix: url}}].  The
    [fallback] object is kept as the list of its own properties in
    [Object.keys] order. *)
Record Manifest := {
  cache : list string;
  network : list string;
  fallback : list (string * string)
}.

(** One element of the array stored under a manifest URL:
    [{hash: manifestHash, parsed: parsedManifest}]. *)
Record ManifestVersion := {
  hash : string;
  parsed : Manifest
}.

(** The part of a [Request] the two modules read or set. *)
Record Request := {
  req_url : string;
  req_method : string;
  req_headers : list (string * string);
  req_mode : string;
  req_referrer : string;
  req_credentials : string;
  req_redirect : string;
  req_cache : string
}.

(** The part of a [Response] the two modules read. *)
Record Response := {
  res_type : string;
  res_status : nat;
  res_url : string;
  res_headers : list (string * string);
  res_body : string
}.

(** [response.ok]: the status is in the range 200-299. *)
Definition ok (response : Response) : bool :=
  Nat.leb 200 (res_status response) && Nat.leb (res_status response) 299.

(** [Response.error()]: a network-error response. *)
Definition Response_error : Response :=
  {| res_type := "error"; res_status := 0; res_url := "";
     res_headers := []; res_body := "" |}.

(** A [FetchEvent]. [clientId] is the empty string when the platform
    gives none. *)
Record FetchEvent := {
  request : Request;
  clientId : string
}.

(** A [Client] of the service worker. *)
Record Client := {
  client_id : string;
  client_url : string
}.

(** What a [throw] or a rejected promise carries. *)
Inductive JsError :=
| TypeError
| NetworkError
| Error (message : string).

(* ------------------------------------------------------------------ *)
(** ** JavaScript helpers on strings, arrays and objects *)

(** Truthiness of a string: every string but [''] is truthy. *)
Definition nonempty (s : string) : bool := negb (s =? "").

(** Truthiness of a value that is a string or [undefined]; yields the
    string when it is truthy. *)
Definition truthy (v : option string) : option string :=
  match v with
  | Some s => if nonempty s then Some s else None
  | None => None
  end.

(** [value === s] for a value that is a string or [null]. *)
Definition strictly_equal (value : option string) (s : string) : bool :=
  match value with
  | Some v => v =? s
  | None => false
  end.

(** [array.includes(x)] on an array of strings. *)
Definition includes (array : list string) (x : string) : bool :=
  existsb (String.eqb x) array.

(** [array.includes(x)] on an array whose elements are strings or
    [undefined], searched for a string. *)
Definition includes_opt (array : list (option string)) (x : string) : bool :=
  existsb (fun y => match y with Some s => String.eqb x s | None => false end)
          array.

(** [fullUrl.startsWith(urlPrefix)]. *)
Definition startsWith (fullUrl urlPrefix : string) : bool :=
  String.prefix urlPrefix fullUrl.

(** [haystack.includes(needle)] on strings. *)
Fixpoint str_includes (haystack needle : string) : bool :=
  String.prefix needle haystack ||
  match haystack with
  | EmptyString => false
  | String _ rest => str_includes rest needle
  end.

(** [Object.keys(object)]. *)
Definition Object_keys (V : Type) (object : list (string * V)) : list string :=
  map fst object.

(** [object[key]], [undefined] ([None]) when [key] is no own property. *)
Fixpoint prop_get (V : Type) (object : list (string * V)) (key : string)
  : option V :=
  match object with
  | [] => None
  | (k, v) :: rest => if String.eqb key k then Some v else prop_get rest key
  end.

(** [object[key] = value]: an existing property keeps its place. *)
Fixpoint prop_set (V : Type) (object : list (string * V)) (key : string)
  (value : V) : list (string * V) :=
  match object with
  | [] => [(key, value)]
  | (k, v) :: rest =>
      if String.eqb key k then (k, value) :: rest
      else (k, v) :: prop_set rest key value
  end.

(** [headers.get(name)]; header names are spelled as the source spells
    them. *)
Definition headers_get (headers : list (string * string)) (name : string)
  : option string :=
  prop_get headers name.

(** [array[array.length - 1]], [undefined] on the empty array. *)
Definition last_elem (A : Type) (array : list A) : option A :=
  match rev array with
  | [] => None
  | x :: _ => Some x
  end.

(* ------------------------------------------------------------------ *)
(** ** IndexedDB stores (idb-keyval) *)

(** An object store: keys are strings, iterated in ascending key order. *)
Definition Store (V : Type) := list (string * V).

Fixpoint store_get (V : Type) (key : string) (s : Store V) : option V :=
  match s with
  | [] => None
  | (k, v) :: rest => if String.eqb key k then Some v else store_get key rest
  end.

Fixpoint store_set (V : Type) (key : string) (value : V) (s : Store V)
  : Store V :=
  match s with
  | [] => [(key, value)]
  | (k, v) :: rest =>
      match String.compare key k with
      | Eq => (key, value) :: rest
      | Lt => (key, value) :: (k, v) :: rest
      | Gt => (k, v) :: store_set key value rest
      end
  end.

Definition store_del (V : Type) (key : string) (s : Store V) : Store V :=
  filter (fun kv => negb (String.eqb key (fst kv))) s.

Definition store_keys (V : Type) (s : Store V) : list string := map fst s.

(* ------------------------------------------------------------------ *)
(** ** Cache Storage *)

(** A [Cache]: request URL to stored response. *)
Definition Cache := list (string * Response).

(** [caches]: cache name to cache, in creation order. *)
Definition CacheStorage := list (string * Cache).

(** [caches.open(name)]: creates the cache when there is none. *)
Definition storage_open (name : string) (cs : CacheStorage) : CacheStorage :=
  match prop_get cs name with
  | Some _ => cs
  | None => cs ++ [(name, [])]
  end.

(** [cache.put(url, response)] on the cache called [name]. *)
Fixpoint storage_put (name url : string) (response : Response)
  (cs : CacheStorage) : CacheStorage :=
  match cs with
  | [] => []
  | (n, c) :: rest =>
      if String.eqb name n then (n, prop_set c url response) :: rest
      else (n, c) :: storage_put name url response rest
  end.

(** [caches.match(url)]: the first cache, in creation order, with an
    entry for [url]. *)
Fixpoint storage_match_any (url : string) (cs : CacheStorage)
  : option Response :=
  match cs with
  | [] => None
  | (_, c) :: rest =>
      match prop_get c url with
      | Some r => Some r
      | None => storage_match_any url rest
      end
  end.

(** [caches.match(url, {cacheName})]: only the cache of that name;
    [undefined] when there is no such cache or no entry. *)
Definition storage_match (url : string) (cacheName : option string)
  (cs : CacheStorage) : option Response :=
  match cacheName with
  | Some name =>
      match prop_get cs name with
      | Some c => prop_get c url
      | None => None
      end
  | None => storage_match_any url cs
  end.

(** [caches.delete(name)]. *)
Definition storage_delete (name : string) (cs : CacheStorage) : CacheStorage :=
  filter (fun nc => negb (String.eqb name (fst nc))) cs.

Definition cache_names (cs : CacheStorage) : list string := map fst cs.

(* ------------------------------------------------------------------ *)
(** ** The platform and the shared world *)

(** What the code reads from its host and never changes.  The library
    functions [parse-appcache-manifest], [crypto.subtle.digest],
    [new URL(...)] and [new Request(...)] are outside the repository;
    [MAX_MANIFEST_AGE] is a constant of [lib/constants.mjs]. *)
Record Platform := {
  (** the platform's [fetch]: [None] is a rejection with a network error *)
  network_fetch : Request -> option Response;
  (** [self.clients.get(id)] *)
  clients_get : string -> option Client;
  (** [self.clients.matchAll()] *)
  clients_matchAll : list Client;
  location_origin : string;
  location_protocol : string;
  location_href : string;
  (** [new URL(u).origin]; [None] when the constructor throws *)
  url_origin : string -> option string;
  (** [new URL(u).protocol] of a request URL *)
  url_protocol : string -> string;
  (** whether [new URL(relative, base)] returns; it throws a
      [TypeError] otherwise *)
  url_resolvable : string -> string -> bool;
  (** [new URL(relative, base).href], when the constructor returns *)
  url_resolve : string -> string -> string;
  (** whether [new Request(url, {...})] returns; it throws a
      [TypeError] otherwise, as for a URL with credentials *)
  request_constructible : string -> bool;
  (** hex SHA-256 of the UTF-8 encoding *)
  digest_hex : string -> string;
  (** [parseAppCacheManifest(text)]: the manifest, or the message of
      the [Error] the parser throws *)
  parseAppCacheManifest : string -> Manifest + string;
  (** [Date.now()] *)
  date_now : Z;
  (** [new Date(s).valueOf()]; [None] is [NaN] *)
  date_valueOf : string -> option Z;
  MAX_MANIFEST_AGE : Z
}.

(** The values of a comma-separated header field; the white space
    around them is dropped. *)
Fixpoint field_values (field current : string) : list string :=
  match field with
  | EmptyString => [current]
  | String c rest =>
      if Ascii.eqb c "," then current :: field_values rest ""
      else if Ascii.eqb c " " then field_values rest current
      else field_values rest (current ++ String c "")%string
  end.

(** Whether [cache.put(url, response)] stores the response.  It rejects
    with a [TypeError] when the scheme of the URL is not http or https,
    when the status is 206, and when the [Vary] header has the value
    [*]. *)
Definition cache_accepts (P : Platform) (url : string) (response : Response)
  : bool :=
  ((url_protocol P url =? "http:") || (url_protocol P url =? "https:")) &&
  negb (Nat.eqb (res_status response) 206) &&
  negb match headers_get (res_headers response) "Vary" with
       | Some vary => includes (field_values vary "") "*"
       | None => false
       end.

(** Observable steps, recorded in order. [EvFetch r] records that a call
    [fetch(r)] was evaluated. *)
Inductive Effect :=
| EvFetch (r : Request)
| EvCacheMatch (url : string) (cacheName : option string)
| EvCachePut (cacheName url : string)
| EvCacheDelete (cacheName : string)
| EvParse (manifestText : string).

Record World := {
  (** store [MANIFEST_URL_TO_CONTENTS]: manifest URL to version history *)
  db_manifests : Store (list ManifestVersion);
  (** store [PATH_TO_MANIFEST]: page URL to manifest URL *)
  db_paths : Store string;
  (** store [CLIENT_ID_TO_HASH]: client id to hash; the value stored
      may be [undefined] *)
  db_clients : Store (option string);
  caches : CacheStorage;
  (** the module variable of sw-runtime.mjs *)
  cleanupInProgress : bool;
  trace : list Effect
}.

Definition with_manifests (s : Store (list ManifestVersion)) (w : World) :=
  {| db_manifests := s; db_paths := db_paths w; db_clients := db_clients w;
     caches := caches w; cleanupInProgress := cleanupInProgress w;
     trace := trace w |}.

Definition with_paths (s : Store string) (w : World) :=
  {| db_manifests := db_manifests w; db_paths := s;
     db_clients := db_clients w; caches := caches w;
     cleanupInProgress := cleanupInProgress w; trace := trace w |}.

Definition with_clients (s : Store (option string)) (w : World) :=
  {| db_manifests := db_manifests w; db_paths := db_paths w;
     db_clients := s; caches := caches w;
     cleanupInProgress := cleanupInProgress w; trace := trace w |}.

Definition with_caches (cs : CacheStorage) (w : World) :=
  {| db_manifests := db_manifests w; db_paths := db_paths w;
     db_clients := db_clients w; caches := cs;
     cleanupInProgress := cleanupInProgress w; trace := trace w |}.

Definition with_cleanupInProgress (b : bool) (w : World) :=
  {| db_manifests := db_manifests w; db_paths := db_paths w;
     db_clients := db_clients w; caches := caches w;
     cleanupInProgress := b; trace := trace w |}.

Definition with_trace (t : list Effect) (w : World) :=
  {| db_manifests := db_manifests w; db_paths := db_paths w;
     db_clients := db_clients w; caches := caches w;
     cleanupInProgress := cleanupInProgress w; trace := t |}.

(** A handle on one of the three stores: [new Store(name, name)]. *)
Record StoreRef (V : Type) := {
  load : World -> Store V;
  save : Store V -> World -> World
}.

Definition MANIFEST_URL_TO_CONTENTS : StoreRef (list ManifestVersion) :=
  {| load := db_manifests; save := with_manifests |}.
Definition PATH_TO_MANIFEST : StoreRef string :=
  {| load := db_paths; save := with_paths |}.
Definition CLIENT_ID_TO_HASH : StoreRef (option string) :=
  {| load := db_clients; save := with_clients |}.

(* ================================================================== *)
(** * The monad of asynchronous functions *)
(* ================================================================== *)

Inductive Completion (A : Type) :=
| Return (value : A)
| Throw (error : JsError).
Arguments Throw {A} error.

Definition Async (A : Type) := World -> Completion A * World.

Definition ret (A : Type) (a : A) : Async A := fun w => (Return a, w).

Definition throw (A : Type) (e : JsError) : Async A := fun w => (Throw e, w).
Arguments throw {A} e.

Definition bind (A B : Type) (m : Async A) (k : A -> Async B) : Async B :=
  fun w =>
    match m w with
    | (Return a, w') => k a w'
    | (Throw e, w') => (Throw e, w')
    end.

(** [try { body } catch (error) { handler }]. *)
Definition try_catch (A : Type) (body : Async A) (handler : JsError -> Async A)
  : Async A :=
  fun w =>
    match body w with
    | (Return a, w') => (Return a, w')
    | (Throw e, w') => handler e w'
    end.

Declare Scope async_scope.
Delimit Scope async_scope with async.
Notation "x <- m ;; k" := (bind m (fun x => k))
  (at level 61, m at next level, right associativity) : async_scope.
Notation "m ;;; k" := (bind m (fun _ => k))
  (at level 61, right associativity) : async_scope.
Local Open Scope async_scope.

Definition log (e : Effect) : Async unit :=
  fun w => (Return tt, with_trace (trace w ++ [e]) w).

Fixpoint mapM (A B : Type) (f : A -> Async B) (l : list A) : Async (list B) :=
  match l with
  | [] => ret []
  | x :: rest => y <- f x ;; ys <- mapM f rest ;; ret (y :: ys)
  end.

(** [Promise.all(operations)]: every operation runs; the outcome is the
    array of the results, or the first rejection. *)
Fixpoint Promise_all (A : Type) (operations : list (Async A))
  : Async (list A) :=
  match operations with
  | [] => ret []
  | operation :: rest =>
      fun w =>
        match operation w with
        | (Return a, w1) =>
            match Promise_all rest w1 with
            | (Return results, w2) => (Return (a :: results), w2)
            | (Throw e, w2) => (Throw e, w2)
            end
        | (Throw e, w1) => (Throw e, snd (Promise_all rest w1))
        end
  end.

(** ** idb-keyval: [get], [set], [del], [keys] *)

Definition get (V : Type) (key : string) (store : StoreRef V)
  : Async (option V) :=
  fun w => (Return (store_get key (load store w)), w).

Definition set (V : Type) (key : string) (value : V) (store : StoreRef V)
  : Async unit :=
  fun w => (Return tt, save store (store_set key value (load store w)) w).

Definition del (V : Type) (key : string) (store : StoreRef V) : Async unit :=
  fun w => (Return tt, save store (store_del key (load store w)) w).

Definition keys (V : Type) (store : StoreRef V) : Async (list string) :=
  fun w => (Return (store_keys (load store w)), w).

(** A value read from [CLIENT_ID_TO_HASH]: a missing key and a stored
    [undefined] both read as [undefined]. *)
Definition stored_hash (v : option (option string)) : option string :=
  match v with
  | Some h => h
  | None => None
  end.

(** ** Cache Storage operations *)

Definition caches_open (name : string) : Async unit :=
  fun w => (Return tt, with_caches (storage_open name (caches w)) w).

Definition caches_match (url : string) (cacheName : option string)
  : Async (option Response) :=
  _ <- log (EvCacheMatch url cacheName) ;;
  fun w => (Return (storage_match url cacheName (caches w)), w).

(** [cache.put(url, response)] on the cache called [name]. *)
Definition cache_put (P : Platform) (name url : string) (response : Response)
  : Async unit :=
  if cache_accepts P url response then
    _ <- log (EvCachePut name url) ;;
    fun w =>
      (Return tt, with_caches (storage_put name url response (caches w)) w)
  else throw TypeError.

Definition caches_delete (name : string) : Async unit :=
  _ <- log (EvCacheDelete name) ;;
  fun w => (Return tt, with_caches (storage_delete name (caches w)) w).

(* ================================================================== *)
(** * src/sw-runtime.mjs *)
(* ================================================================== *)

Module sw_runtime.
Section WithPlatform.

Variable P : Platform.

(** Every call [fetch(x)] written in this module.

    The module declares [async function fetch(event)] at its top level
    (the function it exports), and imports nothing of that name.  The
    declaration is hoisted over the whole module, so the identifier
    [fetch] in [fetchWithFallback], [appCacheLogic],
    [noManifestBehavior] and [appCacheBehaviorForEvent] is bound to the
    module's own function, not to the platform's [fetch].  All those
    calls pass a [Request].  With [event] bound to a [Request], the
    first statement of [appCacheBehaviorForEvent],
    [new URL(event.request.url)], reads the property [request] of a
    [Request], which is [undefined], and then [.url] of [undefined]:
    a [TypeError].  The promise returned by the call is rejected with
    it; nothing is sent to the network and the clean-up is not
    reached. *)
Definition fetch_request (request : Request) : Async Response :=
  _ <- log (EvFetch request) ;;
  (* fetch(event):                    await appCacheBehaviorForEvent(event)
     appCacheBehaviorForEvent(event): new URL(event.request.url) *)
  throw TypeError.

(** [getClientUrlForEvent(event)]. *)
Definition getClientUrlForEvent (event : FetchEvent) : Async string :=
  try_catch
    (match clients_get P (clientId event) with
     | Some client => ret (client_url client)
     | None => throw TypeError
     end)
    (fun _ =>
       if nonempty (req_referrer (request event)) &&
          negb (req_referrer (request event) =? "about:client")
       then ret (req_referrer (request event))
       else ret (req_url (request event))).

(** [longestMatchingPrefix(urlPrefixes, fullUrl)]. *)
Definition longestMatchingPrefix (urlPrefixes : list string)
  (fullUrl : string) : string :=
  fold_left
    (fun longestSoFar current =>
       if Nat.leb (String.length current) (String.length longestSoFar)
       then longestSoFar else current)
    (filter (fun urlPrefix => startsWith fullUrl urlPrefix) urlPrefixes)
    "".

(** [fetchWithFallback(request, fallbackUrl, cacheName)]. *)
Definition fetchWithFallback (request : Request) (fallbackUrl : string)
  (cacheName : string) : Async (option Response) :=
  try_catch
    (response <- fetch_request request ;;
     if negb (ok response) then throw (Error "Request failure.")
     else
       match url_origin P (res_url response) with
       | None => throw TypeError
       | Some origin =>
           if negb (origin =? location_origin P)
           then throw (Error "Request failure.")
           else ret (Some response)
       end)
    (fun _ => caches_match fallbackUrl (Some cacheName)).

(** [getLatestManifestVersion(manifestUrl)]. *)
Definition getLatestManifestVersion (manifestUrl : string)
  : Async (option ManifestVersion) :=
  manifests <- get manifestUrl MANIFEST_URL_TO_CONTENTS ;;
  match manifests with
  | Some manifests => ret (last_elem manifests)
  | None => ret None
  end.

(** [getParsedManifestVersion(manifestUrl, manifestHash)]. *)
Definition getParsedManifestVersion (manifestUrl manifestHash : string)
  : Async (option Manifest) :=
  manifests <- get manifestUrl MANIFEST_URL_TO_CONTENTS ;;
  let manifests := match manifests with Some ms => ms | None => [] end in
  ret (option_map parsed
         (find (fun manifest => hash manifest =? manifestHash) manifests)).

(** [saveClientIdAndHash(clientId, hash)]; [hash] may be [undefined]. *)
Definition saveClientIdAndHash (clientId : string) (hash : option string)
  : Async unit :=
  if nonempty clientId then set clientId hash CLIENT_ID_TO_HASH
  else ret tt.

(** [appCacheLogic(event, manifest, hash, clientUrl)].  [manifest] is
    [undefined] when the caller found none; reading [manifest.cache]
    then throws. *)
Definition appCacheLogic (event : FetchEvent) (manifest : option Manifest)
  (hash : string) (clientUrl : string) : Async (option Response) :=
  let requestUrl := req_url (request event) in
  match manifest with
  | None => throw TypeError
  | Some manifest =>
      if includes (cache manifest) requestUrl || (requestUrl =? clientUrl)
      then caches_match requestUrl (Some hash)
      else
        let fallbackKey :=
          longestMatchingPrefix (Object_keys (fallback manifest)) requestUrl in
        if nonempty fallbackKey then
          (* a key of the object always has a value; ['undefined'] is
             what an absent one would be turned into *)
          let fallbackUrl :=
            match prop_get (fallback manifest) fallbackKey with
            | Some url => url
            | None => "undefined"
            end in
          fetchWithFallback (request event) fallbackUrl hash
        else if includes (network manifest) requestUrl ||
                includes (network manifest) "*"
        then response <- fetch_request (request event) ;; ret (Some response)
        else ret (Some Response_error)
  end.

(** [manifestBehavior(event, manifestUrl, clientUrl)]. *)
Definition manifestBehavior (event : FetchEvent) (manifestUrl clientUrl : string)
  : Async (option Response) :=
  let useLatest : Async (option Response) :=
    latestManifest <- getLatestManifestVersion manifestUrl ;;
    match latestManifest with
    | None => throw TypeError
    | Some latestManifest =>
        appCacheLogic event (Some (parsed latestManifest))
                      (hash latestManifest) clientUrl
    end in
  if nonempty (clientId event) then
    stored <- get (clientId event) CLIENT_ID_TO_HASH ;;
    let hash := stored_hash stored in
    match truthy hash with
    | Some pinned =>
        parsedManifest <- getParsedManifestVersion manifestUrl pinned ;;
        appCacheLogic event parsedManifest pinned clientUrl
    | None =>
        _ <- saveClientIdAndHash (clientId event) hash ;;
        useLatest
    end
  else useLatest.

(** *** [noManifestBehavior] *)

(** The promise an [async] callback returns, with the completion it
    settles to. *)
Inductive Promise (A : Type) := promise (settles : Completion A).

(** Calling an [async] callback that only reads the stores. *)
Definition call_async (A : Type) (body : Async A) : Async (Promise A) :=
  fun w => (Return (promise (fst (body w))), w).

(** The values the reducer of [noManifestBehavior] handles as [prefix]:
    the initial [''] and the elements of [longestForEach]. *)
Inductive PrefixValue :=
| a_string (s : string)
| a_promise (p : Promise string).

(** [value.length]: a promise has no such property. *)
Definition js_length (value : PrefixValue) : option nat :=
  match value with
  | a_string s => Some (String.length s)
  | a_promise _ => None
  end.

(** [a >= b] on lengths: [undefined] converts to [NaN], and every
    comparison with [NaN] is false. *)
Definition js_ge (a b : option nat) : bool :=
  match a, b with
  | Some x, Some y => Nat.leb y x
  | _, _ => false
  end.

(** Truthiness of such a value: an object is truthy. *)
Definition prefix_truthy (value : PrefixValue) : bool :=
  match value with
  | a_string s => nonempty s
  | a_promise _ => true
  end.

(** The value used as a property key. *)
Definition prefix_key (value : PrefixValue) : string :=
  match value with
  | a_string s => s
  | a_promise _ => "[object Promise]"
  end.

Record Longest := {
  prefix : PrefixValue;
  index : nat
}.

(** [array.reduce((previous, x, index) => ..., initial)]. *)
Definition reduce_indexed (A B : Type) (f : B -> A -> nat -> B) (array : list A)
  (initial : B) : B :=
  fold_left (fun previous xi => f previous (fst xi) (snd xi))
            (combine array (seq 0 (List.length array))) initial.

(** [noManifestBehavior(event)].

    [manifestUrls.map(async ...)] is an array of promises, and [await]
    of an array is that array: [longestForEach] holds the promises, not
    the strings they settle to. *)
Definition noManifestBehavior (event : FetchEvent) : Async (option Response) :=
  manifestUrls <- keys MANIFEST_URL_TO_CONTENTS ;;
  longestForEach <-
    mapM (fun manifestUrl =>
            call_async
              (manifestVersions <- get manifestUrl MANIFEST_URL_TO_CONTENTS ;;
               match manifestVersions with
               | None => throw TypeError
               | Some manifestVersions =>
                   match last_elem manifestVersions with
                   | None => throw TypeError
                   | Some latest =>
                       ret (longestMatchingPrefix
                              (Object_keys (fallback (parsed latest)))
                              (req_url (request event)))
                   end
               end))
         manifestUrls ;;
  let longest :=
    reduce_indexed
      (fun previous prefix' index' =>
         if js_ge (js_length (a_promise prefix'))
                  (js_length (prefix previous))
         then {| prefix := a_promise prefix'; index := index' |}
         else previous)
      longestForEach
      {| prefix := a_string ""; index := 0 |} in
  let fallbackKey := prefix longest in
  if prefix_truthy fallbackKey then
    match nth_error manifestUrls (index longest) with
    | None => throw TypeError
    | Some winningManifestUrl =>
        manifests <- get winningManifestUrl MANIFEST_URL_TO_CONTENTS ;;
        match manifests with
        | None => throw TypeError
        | Some manifests =>
            match last_elem manifests with
            | None => throw TypeError
            | Some manifest =>
                let fallbackUrl :=
                  match prop_get (fallback (parsed manifest))
                                 (prefix_key fallbackKey) with
                  | Some url => url
                  | None => "undefined"
                  end in
                fetchWithFallback (request event) fallbackUrl (hash manifest)
            end
        end
    end
  else
    response <- fetch_request (request event) ;; ret (Some response).

(** [appCacheBehaviorForEvent(event)], for a [FetchEvent]. *)
Definition appCacheBehaviorForEvent (event : FetchEvent)
  : Async (option Response) :=
  let requestUrl_protocol := url_protocol P (req_url (request event)) in
  if strictly_equal (headers_get (req_headers (request event)) "X-Use-Fetch")
                    "true"
  then response <- fetch_request (request event) ;; ret (Some response)
  else if negb (req_method (request event) =? "GET") ||
          negb (requestUrl_protocol =? location_protocol P)
  then response <- fetch_request (request event) ;; ret (Some response)
  else
    clientUrl <- getClientUrlForEvent event ;;
    manifestUrl <- get clientUrl PATH_TO_MANIFEST ;;
    match truthy manifestUrl with
    | Some manifestUrl => manifestBehavior event manifestUrl clientUrl
    | None => noManifestBehavior event
    end.

(** [cleanupClientIdAndHash(idsOfActiveClients)]. *)
Definition cleanupClientIdAndHash (idsOfActiveClients : list string)
  : Async (list (option string)) :=
  allKnownIds <- keys CLIENT_ID_TO_HASH ;;
  let idsOfInactiveClients :=
    filter (fun id => negb (includes idsOfActiveClients id)) allKnownIds in
  mapM (fun id =>
          stored <- get id CLIENT_ID_TO_HASH ;;
          _ <- del id CLIENT_ID_TO_HASH ;;
          ret (stored_hash stored))
       idsOfInactiveClients.

(** [getHashesOfOlderVersions()]. *)
Definition getHashesOfOlderVersions : Async (list string) :=
  manifestUrls <- keys MANIFEST_URL_TO_CONTENTS ;;
  perManifest <-
    mapM (fun manifestUrl =>
            manifests <- get manifestUrl MANIFEST_URL_TO_CONTENTS ;;
            match manifests with
            | None => throw TypeError
            | Some manifests => ret (map hash (removelast manifests))
            end)
         manifestUrls ;;
  ret (concat perManifest).

(** [cleanupOldCaches()]. *)
Definition cleanupOldCaches : Async unit :=
  fun w =>
    if cleanupInProgress w then (Return tt, w)
    else
      (let idsOfActiveClients := map client_id (clients_matchAll P) in
       hashesNotInUse <- cleanupClientIdAndHash idsOfActiveClients ;;
       hashesOfOlderVersions <- getHashesOfOlderVersions ;;
       let idsToDelete :=
         filter (fun hashOfOlderVersion =>
                   includes_opt hashesNotInUse hashOfOlderVersion)
                hashesOfOlderVersions in
       _ <- mapM caches_delete idsToDelete ;;
       fun w' => (Return tt, with_cleanupInProgress false w'))
        (with_cleanupInProgress true w).

(** A call whose promise is not awaited: its effects happen, its
    completion is dropped. *)
Definition not_awaited (A : Type) (body : Async A) : Async unit :=
  fun w => (Return tt, snd (body w)).

(** [fetch(event)], the exported entry point, for a [FetchEvent].  The
    clean-up it starts without awaiting is run right after the response
    is known. *)
Definition fetch (event : FetchEvent) : Async (option Response) :=
  response <- appCacheBehaviorForEvent event ;;
  _ <- (if req_mode (request event) =? "navigate"
        then not_awaited cleanupOldCaches
        else ret tt) ;;
  ret response.

End WithPlatform.
End sw_runtime.

(* ================================================================== *)
(** * src/window-runtime.mjs *)
(* ================================================================== *)

Module window_runtime.
Section WithPlatform.

Variable P : Platform.

(** The platform's [fetch(request)]; this module declares no [fetch] of
    its own. *)
Definition fetch (request : Request) : Async Response :=
  _ <- log (EvFetch request) ;;
  match network_fetch P request with
  | Some response => ret response
  | None => throw NetworkError
  end.

(** [new Request(url, {credentials: 'include',
                       headers: {'X-Use-Fetch': true}, ...rest})]. *)
Definition direct_request (url redirect cache' : string) : Request :=
  {| req_url := url; req_method := "GET";
     req_headers := [("X-Use-Fetch", "true")];
     req_mode := "cors"; req_referrer := "about:client";
     req_credentials := "include";
     req_redirect := redirect; req_cache := cache' |}.

(** The callback of [urls.map] in [addToCache]: what is done for one
    URL.  [new Request(url, ...)] stands before the [try]. *)
Definition addToCache_url (hash url : string) : Async unit :=
  if negb (request_constructible P url) then throw TypeError else
  let request := direct_request url "manual" "default" in
  try_catch
    (response <- fetch request ;;
     let cacheControl := headers_get (res_headers response) "Cache-Control" in
     if match truthy cacheControl with
        | Some cacheControl' => str_includes cacheControl' "no-store"
        | None => false
        end
     then ret tt
     else if ok response then cache_put P hash url response
     else if negb (res_status response =? 404)%nat &&
             negb (res_status response =? 410)%nat
     then throw (Error "Response code was returned.")
     else ret tt)
    (fun _ =>
       response <- caches_match url None ;;
       match response with
       | Some response => cache_put P hash url response
       | None => ret tt
       end).

(** [addToCache(hash, urls)]. *)
Definition addToCache (hash : string) (urls : list string) : Async unit :=
  _ <- caches_open hash ;;
  _ <- Promise_all (map (addToCache_url hash) urls) ;;
  ret tt.

(** [getManifestText(manifestUrl)]; the text of a response is its
    body. *)
Definition getManifestText (manifestUrl : string) : Async string :=
  if negb (request_constructible P manifestUrl) then throw TypeError else
  let manifestRequest := direct_request manifestUrl "follow" "default" in
  manifestResponse <- fetch manifestRequest ;;
  let fresh := ret (res_body manifestResponse) in
  match truthy (headers_get (res_headers manifestResponse) "date") with
  | Some dateHeaderValue =>
      match date_valueOf P dateHeaderValue with
      | Some manifestDate =>
          let manifestAgeInMillis := (date_now P - manifestDate)%Z in
          if (MAX_MANIFEST_AGE P <? manifestAgeInMillis)%Z then
            let noCacheRequest := direct_request manifestUrl "follow" "reload" in
            noCacheResponse <- fetch noCacheRequest ;;
            ret (res_body noCacheResponse)
          else fresh
      | None => fresh
      end
  | None => fresh
  end.

(** [generateHash(manifestUrl, manifestText)]. *)
Definition generateHash (manifestUrl manifestText : string) : string :=
  digest_hex P (manifestUrl ++ manifestText)%string.

(** Whether [makeManifestUrlsAbsolute(baseUrl, originalManifest)]
    returns: every [new URL(..., baseUrl)] it evaluates must return. *)
Definition manifest_resolvable (baseUrl : string) (originalManifest : Manifest)
  : bool :=
  forallb (fun relativeUrl => url_resolvable P relativeUrl baseUrl)
          (cache originalManifest) &&
  forallb (fun relativeUrl =>
             (relativeUrl =? "*") || url_resolvable P relativeUrl baseUrl)
          (network originalManifest) &&
  forallb (fun entry =>
             url_resolvable P (fst entry) baseUrl &&
             url_resolvable P (snd entry) baseUrl)
          (fallback originalManifest).

(** [makeManifestUrlsAbsolute(baseUrl, originalManifest)], when it
    returns. *)
Definition makeManifestUrlsAbsolute (baseUrl : string)
  (originalManifest : Manifest) : Manifest :=
  {| cache :=
       map (fun relativeUrl => url_resolve P relativeUrl baseUrl)
           (cache originalManifest);
     network :=
       map (fun relativeUrl =>
              if relativeUrl =? "*" then relativeUrl
              else url_resolve P relativeUrl baseUrl)
           (network originalManifest);
     fallback :=
       fold_left
         (fun object key =>
            prop_set object (url_resolve P key baseUrl)
              (url_resolve P
                 (match prop_get (fallback originalManifest) key with
                  | Some value => value
                  | None => "undefined"
                  end)
                 baseUrl))
         (Object_keys (fallback originalManifest))
         [] |}.

(** [performManifestUpdate(manifestUrl, manifestHash, manifestText,
                           previousManifests)]. *)
Definition performManifestUpdate (manifestUrl manifestHash manifestText : string)
  (previousManifests : list ManifestVersion) : Async string :=
  _ <- log (EvParse manifestText) ;;
  match parseAppCacheManifest P manifestText with
  | inr message => throw (Error message)
  | inl originalManifest =>
      if negb (manifest_resolvable manifestUrl originalManifest)
      then throw TypeError
      else
        let parsedManifest :=
          makeManifestUrlsAbsolute manifestUrl originalManifest in
        let previousManifests :=
          previousManifests ++
          [{| hash := manifestHash; parsed := parsedManifest |}] in
        let fallbackUrls :=
          map (fun key =>
                 match prop_get (fallback parsedManifest) key with
                 | Some url => url
                 | None => "undefined"
                 end)
              (Object_keys (fallback parsedManifest)) in
        let urlsToCache := cache parsedManifest ++ fallbackUrls in
        urls <- keys PATH_TO_MANIFEST ;;
        masterEntries <-
          mapM (fun url =>
                  possibleManifestUrl <- get url PATH_TO_MANIFEST ;;
                  match possibleManifestUrl with
                  | Some possibleManifestUrl =>
                      if possibleManifestUrl =? manifestUrl then ret [url]
                      else ret []
                  | None => ret []
                  end)
               urls ;;
        let urlsToCache := urlsToCache ++ concat masterEntries in
        _ <- Promise_all
               [ addToCache manifestHash urlsToCache;
                 set manifestUrl previousManifests MANIFEST_URL_TO_CONTENTS ] ;;
        ret manifestHash
  end.

(** [checkManifestVersion(manifestUrl)]. *)
Definition checkManifestVersion (manifestUrl : string) : Async string :=
  currentManifestText <- getManifestText manifestUrl ;;
  let currentManifestHash := generateHash manifestUrl currentManifestText in
  stored <- get manifestUrl MANIFEST_URL_TO_CONTENTS ;;
  let previousManifests := match stored with Some ms => ms | None => [] end in
  let isManifestKnown :=
    existsb (fun previousManifest => hash previousManifest =? currentManifestHash)
            previousManifests in
  _ <- (if negb isManifestKnown
        then _ <- performManifestUpdate manifestUrl currentManifestHash
                    currentManifestText previousManifests ;;
             ret tt
        else ret tt) ;;
  ret currentManifestHash.

(** [updateManifestAssociationForCurrentPage(manifestUrl, hash)]. *)
Definition updateManifestAssociationForCurrentPage (manifestUrl hash : string)
  : Async unit :=
  _ <- Promise_all
         [ addToCache hash [location_href P];
           set (location_href P) manifestUrl PATH_TO_MANIFEST ] ;;
  ret tt.

End WithPlatform.
End window_runtime.

(* ================================================================== *)
(** * A concrete origin, used to run the code on explicit inputs *)
(* ================================================================== *)

Module Example_origin.

Definition req (url : string) : Request :=
  {| req_url := url; req_method := "GET"; req_headers := [];
     req_mode := "no-cors"; req_referrer := ""; req_credentials := "";
     req_redirect := "follow"; req_cache := "default" |}.

Definition page (body : string) (url : string) : Response :=
  {| res_type := "basic"; res_status := 200; res_url := url;
     res_headers := []; res_body := body |}.

(** The manifest of the end-to-end scenario of the specification, with
    its URLs made absolute. *)
Definition manifest_v1 : Manifest :=
  {| cache := ["https://x/a.js"];
     network := [];
     fallback := [("https://x/api/", "https://x/offline.html")] |}.

Definition manifest_v2 : Manifest :=
  {| cache := ["https://x/a.js"; "https://x/b.js"];
     network := ["*"];
     fallback := [("https://x/api/", "https://x/offline.html")] |}.

(** A manifest with a URL that carries credentials. *)
Definition manifest_v3 : Manifest :=
  {| cache := ["https://x/a.js"; "https://user:secret@x/c.js"];
     network := [];
     fallback := [] |}.

(** Two fallback prefixes, one extending the other. *)
Definition manifest_ab : Manifest :=
  {| cache := [];
     network := [];
     fallback := [("/a/", "/fallback-a.html"); ("/a/b/", "/fallback-ab.html")] |}.

(** A server that answers every request with a 200 from the origin;
    the manifest text is [text]. *)
Definition online (text : string) (active : list Client) : Platform :=
  {| network_fetch :=
       fun r =>
         if req_url r =? "https://x/app.manifest"
         then Some (page text (req_url r))
         else Some (page (req_url r ++ " as of " ++ text)%string (req_url r));
     clients_get := fun id => find (fun c => client_id c =? id) active;
     clients_matchAll := active;
     location_origin := "https://x";
     location_protocol := "https:";
     location_href := "https://x/index.html";
     url_origin :=
       fun u => if u =? "" then None
                else if String.prefix "https://x/" u then Some "https://x"
                else Some "https://elsewhere";
     url_protocol :=
       fun u => if String.prefix "https:" u then "https:" else "http:";
     url_resolvable := fun relative base => negb (relative =? "https://");
     url_resolve := fun relative base => relative;
     request_constructible := fun url => negb (str_includes url "@");
     digest_hex := fun s => ("sha256:" ++ s)%string;
     parseAppCacheManifest :=
       fun text => if text =? "v1" then inl manifest_v1
                   else if text =? "v2" then inl manifest_v2
                   else if text =? "v3" then inl manifest_v3
                   else inr "not a manifest";
     date_now := 0%Z;
     date_valueOf := fun _ => None;
     MAX_MANIFEST_AGE := 86400000%Z |}.



Definition empty_world : World :=
  {| db_manifests := []; db_paths := []; db_clients := [];
     caches := []; cleanupInProgress := false; trace := [] |}.

Definition tab (id : string) : Client :=
  {| client_id := id; client_url := "https://x/index.html" |}.

Definition event_for (url id : string) : FetchEvent :=
  {| request := req url; clientId := id |}.

Definition app_manifest : string := "https://x/app.manifest".
Definition H1 : string := "sha256:https://x/app.manifestv1".
Definition H2 : string := "sha256:https://x/app.manifestv2".

(** What [init] does on the page [https://x/index.html]: check the
    manifest, then associate the page with it. *)
Definition load_page (P : Platform) : Async unit :=
  bind (window_runtime.checkManifestVersion P app_manifest)
       (fun hash =>
          window_runtime.updateManifestAssociationForCurrentPage
            P app_manifest hash).

(** The page was loaded once, while the manifest text was [v1]. *)
Definition loaded_v1 : World :=
  with_trace [] (snd (load_page (online "v1" [tab "c1"]) empty_world)).

(** A manifest whose three sections all cover one URL. *)
Definition manifest_overlap : Manifest :=
  {| cache := ["https://x/api/data.json"];
     network := ["https://x/api/data.json"; "*"];
     fallback := [("https://x/api/", "https://x/offline.html")] |}.

(** Two versions of the manifest, both cached, and the given content of
    [CLIENT_ID_TO_HASH]. *)
Definition two_versions (pins : Store (option string)) : World :=
  {| db_manifests :=
       [(app_manifest, [ {| hash := H1; parsed := manifest_v1 |};
                         {| hash := H2; parsed := manifest_v2 |} ])];
     db_paths := [("https://x/index.html", app_manifest)];
     db_clients := pins;
     caches :=
       [(H1, [("https://x/a.js", page "a.js of v1" "https://x/a.js")]);
        (H2, [("https://x/a.js", page "a.js of v2" "https://x/a.js")])];
     cleanupInProgress := false;
     trace := [] |}.

End Example_origin.

(* ================================================================== *)
(** * Notions used to state the properties *)
(* ================================================================== *)

(** A request that matches none of the sections of a manifest and is
    not the client URL. *)
Definition matches_nothing (manifest : Manifest) (requestUrl clientUrl : string)
  : Prop :=
  ~ In requestUrl (cache manifest) /\ requestUrl <> clientUrl /\
  (forall key, In key (Object_keys (fallback manifest)) ->
               startsWith requestUrl key = false) /\
  ~ In requestUrl (network manifest) /\ ~ In "*" (network manifest).

(** The version [manifestBehavior] resolves a request against, given the
    history stored for the manifest: the one whose hash is recorded for
    the session, or else the last one. *)
Definition version_in_use (w : World) (event : FetchEvent)
  (history : list ManifestVersion) (version : ManifestVersion) : Prop :=
  (nonempty (clientId event) = true /\
   truthy (stored_hash (store_get (clientId event) (db_clients w))) =
     Some (hash version) /\
   find (fun m => hash m =? hash version) history = Some version)
  \/
  ((nonempty (clientId event) = false \/
    truthy (stored_hash (store_get (clientId event) (db_clients w))) = None) /\
   last_elem history = Some version).

(** The hashes of the versions that are not the last of their history. *)
Definition older_hashes (manifests : Store (list ManifestVersion))
  (manifestUrl : string) : list string :=
  match store_get manifestUrl manifests with
  | Some history => map hash (removelast history)
  | None => []
  end.

(** The response carries [Cache-Control] with [no-store] in it. *)
Definition declares_no_store (response : Response) : bool :=
  match truthy (headers_get (res_headers response) "Cache-Control") with
  | Some cacheControl => str_includes cacheControl "no-store"
  | None => false
  end.

(** The outcomes of [addToCache] for one URL for which a request can
    be constructed, as worlds. *)
Definition after_skip (url : string) (w : World) : World :=
  with_trace (trace w ++ [EvFetch (window_runtime.direct_request
                                     url "manual" "default")]) w.

Definition after_store (hash url : string) (response : Response) (w : World)
  : World :=
  with_caches (storage_put hash url response (caches w))
    (with_trace
       (trace w ++ [EvFetch (window_runtime.direct_request
                               url "manual" "default");
                    EvCachePut hash url]) w).

Definition after_copy (hash url : string) (w : World) : World :=
  match storage_match_any url (caches w) with
  | Some cached =>
      with_caches (storage_put hash url cached (caches w))
        (with_trace
           (trace w ++ [EvFetch (window_runtime.direct_request
                                   url "manual" "default");
                        EvCacheMatch url None;
                        EvCachePut hash url]) w)
  | None =>
      with_trace
        (trace w ++ [EvFetch (window_runtime.direct_request
                                url "manual" "default");
                     EvCacheMatch url None]) w
  end.

(** The world after the [catch] block has looked for a cached copy. *)
Definition after_lookup (url : string) (w : World) : World :=
  with_trace
    (trace w ++ [EvFetch (window_runtime.direct_request
                            url "manual" "default");
                 EvCacheMatch url None]) w.

(** The [catch] block of [addToCache]: the copy that [caches.match(url)]
    finds, if any, is put in the cache named [hash]; when the cache
    refuses that copy the step rejects. *)
Definition attempt_copy (P : Platform) (hash url : string) (w : World)
  : Completion unit * World :=
  match storage_match_any url (caches w) with
  | Some cached =>
      if cache_accepts P url cached then (Return tt, after_copy hash url w)
      else (Throw TypeError, after_lookup url w)
  | None => (Return tt, after_copy hash url w)
  end.

(** Every response held in the caches is one [cache.put] accepts under
    its URL, as is the case when all of them were stored by
    [cache.put]. *)
Definition caches_wellformed (P : Platform) (cs : CacheStorage) : bool :=
  forallb (fun named =>
             forallb (fun entry => cache_accepts P (fst entry) (snd entry))
                     (snd named))
          cs.

Definition is_fetch (e : Effect) : Prop := exists r, e = EvFetch r.

(** Two worlds that differ at most in the trace. *)
Definition same_but_trace (w w' : World) : Prop :=
  db_manifests w' = db_manifests w /\ db_paths w' = db_paths w /\
  db_clients w' = db_clients w /\ caches w' = caches w /\
  cleanupInProgress w' = cleanupInProgress w.

(** Two worlds that differ at most in the caches and the trace. *)
Definition same_stores (w w' : World) : Prop :=
  db_manifests w' = db_manifests w /\ db_paths w' = db_paths w /\
  db_clients w' = db_clients w /\
  cleanupInProgress w' = cleanupInProgress w.

(** The URLs an update of the manifest at [manifestUrl] is to put in
    the new cache, given the manifest as the parser returned it: the
    cache section, the values of the fallback section, and the pages
    associated with the manifest. *)
Definition to_materialize (P : Platform) (manifestUrl : string)
  (originalManifest : Manifest) (w : World) (url : string) : Prop :=
  let manifest :=
    window_runtime.makeManifestUrlsAbsolute P manifestUrl originalManifest in
  In url (cache manifest) \/
  (exists key, prop_get (fallback manifest) key = Some url) \/
  store_get url (db_paths w) = Some manifestUrl.

(** The version history stored for a manifest, empty when there is
    none. *)
Definition history_of (w : World) (manifestUrl : string)
  : list ManifestVersion :=
  match store_get manifestUrl (db_manifests w) with
  | Some history => history
  | None => []
  end.



(* ================================================================== *)
(** * Properties *)
(* ================================================================== *)

Unset Implicit Arguments.

(** ** Arrays, objects and stores *)

Lemma includes_In (array : list string) (x : string) :
  includes array x = true <-> In x array.
Proof.
  unfold includes. rewrite existsb_exists. split.
  - intros [y [Hy E]]. apply String.eqb_eq in E. now subst.
  - intros H. exists x. split; [assumption | apply String.eqb_refl].
Qed.

Lemma includes_false (array : list string) (x : string) :
  includes array x = false <-> ~ In x array.
Proof.
  rewrite <- includes_In. destruct (includes array x); split; congruence.
Qed.

Lemma includes_opt_In (array : list (option string)) (x : string) :
  includes_opt array x = true <-> In (Some x) array.
Proof.
  unfold includes_opt. rewrite existsb_exists. split.
  - intros [[s|] [Hy E]]; [|discriminate].
    apply String.eqb_eq in E. now subst.
  - intros H. exists (Some x). split; [assumption | apply String.eqb_refl].
Qed.

Lemma nonempty_true (s : string) : nonempty s = true <-> s <> "".
Proof.
  unfold nonempty. rewrite negb_true_iff. apply String.eqb_neq.
Qed.

Lemma store_get_keys (V : Type) (key : string) (s : Store V) :
  In key (store_keys s) <-> exists v, store_get key s = Some v.
Proof.
  induction s as [|[k v] rest IH]; simpl.
  - split; [tauto | intros [v H]; discriminate].
  - destruct (String.eqb_spec key k) as [->|Hne].
    + split; [eauto | auto].
    + rewrite <- IH. split; [intros [H|H]; [congruence | assumption] | auto].
Qed.

Lemma store_get_set_same (V : Type) (key : string) (value : V) (s : Store V) :
  store_get key (store_set key value s) = Some value.
Proof.
  induction s as [|[k v] rest IH]; simpl.
  - now rewrite String.eqb_refl.
  - destruct (String.compare key k) eqn:C; simpl.
    + now rewrite String.eqb_refl.
    + now rewrite String.eqb_refl.
    + destruct (String.eqb_spec key k) as [->|_]; [|assumption].
      pose proof (String.compare_antisym k k) as A.
      rewrite C in A. discriminate.
Qed.

Lemma store_get_set_other (V : Type) (key key' : string) (value : V)
  (s : Store V) :
  key' <> key -> store_get key' (store_set key value s) = store_get key' s.
Proof.
  intros Hne. induction s as [|[k v] rest IH]; simpl.
  - destruct (String.eqb_spec key' key); congruence.
  - destruct (String.compare key k) eqn:C; simpl.
    + apply String.compare_eq_iff in C. subst k.
      destruct (String.eqb_spec key' key); congruence.
    + destruct (String.eqb_spec key' key); congruence.
    + now rewrite IH.
Qed.

Lemma store_get_del (V : Type) (key key' : string) (s : Store V) :
  store_get key' (store_del key s) =
  if String.eqb key' key then None else store_get key' s.
Proof.
  induction s as [|[k v] rest IH]; simpl.
  - now destruct (String.eqb key' key).
  - destruct (String.eqb_spec key k) as [->|Hne]; simpl.
    + rewrite IH. now destruct (String.eqb key' k).
    + rewrite IH. destruct (String.eqb_spec key' k) as [->|Hne'].
      * destruct (String.eqb_spec k key); congruence.
      * reflexivity.
Qed.

(** ** The longest matching prefix *)

Section LongestPrefix.

Let keep_longer (longestSoFar current : string) : string :=
  if Nat.leb (String.length current) (String.length longestSoFar)
  then longestSoFar else current.

Lemma fold_keep_longer (candidates : list string) (initial : string) :
  let result := fold_left keep_longer candidates initial in
  (result = initial \/ In result candidates) /\
  String.length initial <= String.length result /\
  (forall x, In x candidates -> String.length x <= String.length result).
Proof.
  revert initial. induction candidates as [|c rest IH]; intros initial; simpl.
  - repeat split; auto. intros x [].
  - destruct (IH (keep_longer initial c)) as [Hin [Hge Hall]].
    assert (Hk : String.length initial <= String.length (keep_longer initial c)
                 /\ String.length c <= String.length (keep_longer initial c)
                 /\ (keep_longer initial c = initial \/ keep_longer initial c = c)).
    { unfold keep_longer.
      destruct (Nat.leb_spec (String.length c) (String.length initial));
        repeat split; auto; lia. }
    destruct Hk as [Hk1 [Hk2 Hk3]].
    repeat split.
    + destruct Hin as [Hin|Hin]; [|right; right; exact Hin].
      destruct Hk3 as [E|E];
        [left; rewrite Hin; exact E
        | right; left; rewrite Hin; symmetry; exact E].
    + lia.
    + intros x [<-|Hx]; [lia | auto].
Qed.

(** [longestMatchingPrefix] returns [''] or one of the prefixes that
    match, and no matching prefix is longer than what it returns. *)
Lemma longestMatchingPrefix_spec (urlPrefixes : list string) (fullUrl : string) :
  let longest := sw_runtime.longestMatchingPrefix urlPrefixes fullUrl in
  (longest = "" \/
   (In longest urlPrefixes /\ startsWith fullUrl longest = true)) /\
  (forall urlPrefix,
      In urlPrefix urlPrefixes -> startsWith fullUrl urlPrefix = true ->
      String.length urlPrefix <= String.length longest).
Proof.
  unfold sw_runtime.longestMatchingPrefix.
  destruct (fold_keep_longer
              (filter (fun urlPrefix => startsWith fullUrl urlPrefix) urlPrefixes)
              "") as [Hin [_ Hall]].
  split.
  - destruct Hin as [Hin|Hin]; [left; exact Hin | right].
    apply filter_In in Hin. exact Hin.
  - intros p Hp Hs. apply Hall. apply filter_In. auto.
Qed.

(** When a non-empty key matches, the result is a non-empty matching
    key. *)
Lemma longestMatchingPrefix_found (urlPrefixes : list string)
  (fullUrl urlPrefix : string) :
  In urlPrefix urlPrefixes -> startsWith fullUrl urlPrefix = true ->
  urlPrefix <> "" ->
  let longest := sw_runtime.longestMatchingPrefix urlPrefixes fullUrl in
  nonempty longest = true /\ In longest urlPrefixes /\
  startsWith fullUrl longest = true.
Proof.
  intros Hin Hs Hne longest.
  destruct (longestMatchingPrefix_spec urlPrefixes fullUrl) as [Hres Hall].
  fold longest in Hres, Hall.
  assert (Hlen : String.length urlPrefix <= String.length longest)
    by (apply Hall; assumption).
  assert (Hne' : longest <> "").
  { intros E. rewrite E in Hlen. destruct urlPrefix; simpl in Hlen;
      [congruence | lia]. }
  split; [now apply nonempty_true|].
  destruct Hres as [E|H]; [congruence | exact H].
Qed.

End LongestPrefix.

(** With the keys [/a/] and [/a/b/], a request to [/a/b/c] selects
    [/a/b/] and a request to [/a/x] selects [/a/], in whatever order the
    keys are listed. *)
Example longestMatchingPrefix_a_b :
  sw_runtime.longestMatchingPrefix
    (Object_keys (fallback Example_origin.manifest_ab)) "/a/b/c" = "/a/b/" /\
  sw_runtime.longestMatchingPrefix ["/a/b/"; "/a/"] "/a/b/c" = "/a/b/" /\
  sw_runtime.longestMatchingPrefix
    (Object_keys (fallback Example_origin.manifest_ab)) "/a/x" = "/a/".
Proof. repeat split. Qed.

(** ** Running the monad *)

Lemma prop_get_key_In (V : Type) (object : list (string * V)) (key : string) :
  In key (Object_keys object) -> exists v, prop_get object key = Some v.
Proof.
  induction object as [|[k v] rest IH]; simpl; [tauto|].
  intros [->|H].
  - rewrite String.eqb_refl. eauto.
  - destruct (String.eqb key k); eauto.
Qed.

(** Every [fetch(request)] of the service-worker module is rejected
    with a [TypeError], so [fetchWithFallback] always ends in its
    [catch] block. *)
Lemma fetchWithFallback_runs (P : Platform) (request : Request)
  (fallbackUrl cacheName : string) (w : World) :
  sw_runtime.fetchWithFallback P request fallbackUrl cacheName w =
  (Return (storage_match fallbackUrl (Some cacheName) (caches w)),
   with_trace (trace w ++ [EvFetch request;
                            EvCacheMatch fallbackUrl (Some cacheName)]) w).
Proof.
  unfold sw_runtime.fetchWithFallback, sw_runtime.fetch_request, caches_match,
    try_catch, bind, log, throw, with_trace; simpl.
  now rewrite <- app_assoc.
Qed.

(** ** The resolver: [appCacheLogic] *)

Section Resolver.

Variable P : Platform.

Lemma cache_branch_condition (manifest : Manifest) (requestUrl clientUrl : string) :
  In requestUrl (cache manifest) \/ requestUrl = clientUrl ->
  includes (cache manifest) requestUrl || (requestUrl =? clientUrl) = true.
Proof.
  intros [H| ->]; apply orb_true_iff.
  - left. now apply includes_In.
  - right. apply String.eqb_refl.
Qed.

Lemma not_cache_branch_condition (manifest : Manifest)
  (requestUrl clientUrl : string) :
  ~ In requestUrl (cache manifest) -> requestUrl <> clientUrl ->
  includes (cache manifest) requestUrl || (requestUrl =? clientUrl) = false.
Proof.
  intros H1 H2. apply orb_false_iff. split.
  - now apply includes_false.
  - now apply String.eqb_neq.
Qed.

Lemma no_key_matches (urlPrefixes : list string) (fullUrl : string) :
  (forall key, In key urlPrefixes -> startsWith fullUrl key = false) ->
  sw_runtime.longestMatchingPrefix urlPrefixes fullUrl = "".
Proof.
  intros H.
  destruct (longestMatchingPrefix_spec urlPrefixes fullUrl) as [[E|[Hin Hs]] _];
    [exact E|].
  rewrite (H _ Hin) in Hs. discriminate.
Qed.

(** The cache branch of [appCacheLogic]: one cache lookup under [hash],
    and nothing else. *)
Lemma appCacheLogic_cache_branch (event : FetchEvent) (manifest : Manifest)
  (hash clientUrl : string) (w : World) :
  In (req_url (request event)) (cache manifest) \/
  req_url (request event) = clientUrl ->
  sw_runtime.appCacheLogic P event (Some manifest) hash clientUrl w =
  (Return (storage_match (req_url (request event)) (Some hash) (caches w)),
   with_trace (trace w ++ [EvCacheMatch (req_url (request event)) (Some hash)])
              w).
Proof.
  intros H. unfold sw_runtime.appCacheLogic.
  rewrite (cache_branch_condition _ _ _ H). reflexivity.
Qed.

(** The fallback branch: the value of the longest matching key is the
    fallback URL handed to [fetchWithFallback]. *)
Lemma appCacheLogic_fallback_branch (event : FetchEvent) (manifest : Manifest)
  (hash clientUrl key : string) (w : World) :
  ~ In (req_url (request event)) (cache manifest) ->
  req_url (request event) <> clientUrl ->
  In key (Object_keys (fallback manifest)) ->
  startsWith (req_url (request event)) key = true ->
  key <> "" ->
  exists longest fallbackUrl,
    In longest (Object_keys (fallback manifest)) /\
    startsWith (req_url (request event)) longest = true /\
    (forall key', In key' (Object_keys (fallback manifest)) ->
                  startsWith (req_url (request event)) key' = true ->
                  String.length key' <= String.length longest) /\
    prop_get (fallback manifest) longest = Some fallbackUrl /\
    sw_runtime.appCacheLogic P event (Some manifest) hash clientUrl w =
    sw_runtime.fetchWithFallback P (request event) fallbackUrl hash w.
Proof.
  intros Hc Hu Hin Hs Hne.
  destruct (longestMatchingPrefix_found _ _ _ Hin Hs Hne) as [Ht [Hl Hsl]].
  destruct (longestMatchingPrefix_spec
              (Object_keys (fallback manifest)) (req_url (request event)))
    as [_ Hmax].
  destruct (prop_get_key_In _ _ _ Hl) as [fallbackUrl Hget].
  exists (sw_runtime.longestMatchingPrefix
            (Object_keys (fallback manifest)) (req_url (request event))),
         fallbackUrl.
  repeat split; try assumption.
  unfold sw_runtime.appCacheLogic.
  rewrite (not_cache_branch_condition _ _ _ Hc Hu), Ht, Hget. reflexivity.
Qed.

(** A request that matches nothing gets [Response.error()], and the
    world is left as it was. *)
Lemma appCacheLogic_no_match (event : FetchEvent) (manifest : Manifest)
  (hash clientUrl : string) (w : World) :
  matches_nothing manifest (req_url (request event)) clientUrl ->
  sw_runtime.appCacheLogic P event (Some manifest) hash clientUrl w =
  (Return (Some Response_error), w).
Proof.
  intros (Hc & Hu & Hf & Hn & Hs). unfold sw_runtime.appCacheLogic.
  rewrite (not_cache_branch_condition _ _ _ Hc Hu), (no_key_matches _ _ Hf).
  simpl. apply includes_false in Hn, Hs. now rewrite Hn, Hs.
Qed.

End Resolver.

(** C1.  A request whose URL is in the cache section of the manifest,
    or is the client URL, is answered by the lookup of that URL in the
    cache named by the version hash, whatever the network and fallback
    sections hold.  The trace grows by that one lookup: no [fetch] is
    called. *)
Theorem cache_section_wins (P : Platform) (event : FetchEvent)
  (manifest : Manifest) (hash clientUrl : string) (w : World) :
  In (req_url (request event)) (cache manifest) \/
  req_url (request event) = clientUrl ->
  let result := sw_runtime.appCacheLogic P event (Some manifest) hash clientUrl w in
  fst result =
    Return (storage_match (req_url (request event)) (Some hash) (caches w)) /\
  trace (snd result) =
    trace w ++ [EvCacheMatch (req_url (request event)) (Some hash)] /\
  (forall r, In (EvFetch r) (trace (snd result)) -> In (EvFetch r) (trace w)).
Proof.
  intros H result. unfold result.
  rewrite (appCacheLogic_cache_branch P event manifest hash clientUrl w H).
  simpl. repeat split. intros r Hi.
  apply in_app_or in Hi. destruct Hi as [Hi|[Hi|[]]];
    [assumption | discriminate].
Qed.

Import Example_origin.

Lemma cache_section_wins_witness :
  let event := event_for "https://x/api/data.json" "c1" in
  let w := two_versions [] in
  let result :=
    sw_runtime.appCacheLogic (online "v2" [tab "c1"]) event
      (Some manifest_overlap) H2 "https://x/index.html" w in
  fst result =
    Return (storage_match "https://x/api/data.json" (Some H2) (caches w)) /\
  trace (snd result) =
    trace w ++ [EvCacheMatch "https://x/api/data.json" (Some H2)] /\
  (forall r, In (EvFetch r) (trace (snd result)) -> In (EvFetch r) (trace w)).
Proof.
  apply (cache_section_wins (online "v2" [tab "c1"])
           (event_for "https://x/api/data.json" "c1") manifest_overlap H2
           "https://x/index.html" (two_versions [])).
  left. simpl. left. reflexivity.
Defined.

(** C10.  When the request URL is in the cache section, or is the
    client URL, and the cache named by the version hash holds no entry
    for it, the resolver completes with the empty result of that lookup
    ([undefined]).  The lookup is its only step: it does not go on to
    the fallback keys or the network section and it calls no
    [fetch]. *)
Theorem cache_miss_is_returned (P : Platform) (event : FetchEvent)
  (manifest : Manifest) (hash clientUrl : string) (w : World) :
  In (req_url (request event)) (cache manifest) \/
  req_url (request event) = clientUrl ->
  storage_match (req_url (request event)) (Some hash) (caches w) = None ->
  sw_runtime.appCacheLogic P event (Some manifest) hash clientUrl w =
  (Return None,
   with_trace (trace w ++ [EvCacheMatch (req_url (request event)) (Some hash)])
              w).
Proof.
  intros H Hmiss.
  rewrite (appCacheLogic_cache_branch P event manifest hash clientUrl w H).
  now rewrite Hmiss.
Qed.

Lemma cache_miss_is_returned_witness :
  sw_runtime.appCacheLogic (online "v2" [tab "c1"])
    (event_for "https://x/b.js" "c1") (Some manifest_v2) H2
    "https://x/index.html" (two_versions []) =
  (Return None,
   with_trace (trace (two_versions []) ++
               [EvCacheMatch "https://x/b.js" (Some H2)])
              (two_versions [])).
Proof.
  apply (cache_miss_is_returned (online "v2" [tab "c1"])
           (event_for "https://x/b.js" "c1") manifest_v2 H2
           "https://x/index.html" (two_versions [])).
  - left. simpl. right. left. reflexivity.
  - reflexivity.
Defined.

(** C2, run on a concrete request.  The manifest has the fallback key
    [https://x/api/]; the request [https://x/api/widgets] is in no cache
    section and is not the client URL; the server would answer it with a
    200 from the same origin.  The resolver nevertheless completes with
    the cached fallback page: the call [fetch(request)] in
    [fetchWithFallback] reaches the module's own [fetch], which rejects,
    and the [catch] block substitutes the fallback. *)
Theorem fallback_replaces_a_successful_answer :
  let P := online "v1" [tab "c1"] in
  let event := event_for "https://x/api/widgets" "c1" in
  let live := page "https://x/api/widgets as of v1" "https://x/api/widgets" in
  let fallbackPage :=
    page "https://x/offline.html as of v1" "https://x/offline.html" in
  network_fetch P (request event) = Some live /\
  ok live = true /\
  url_origin P (res_url live) = Some (location_origin P) /\
  fst (sw_runtime.fetch P event loaded_v1) = Return (Some fallbackPage) /\
  fallbackPage <> live.
Proof.
  repeat split; try reflexivity. discriminate.
Qed.

(** ** The resolver: which version a session is resolved against *)

Section Sessions.

Variable P : Platform.

Lemma manifestBehavior_resolves (event : FetchEvent)
  (manifestUrl clientUrl : string) (w : World)
  (history : list ManifestVersion) (version : ManifestVersion) :
  store_get manifestUrl (db_manifests w) = Some history ->
  version_in_use w event history version ->
  exists w1,
    sw_runtime.manifestBehavior P event manifestUrl clientUrl w =
    sw_runtime.appCacheLogic P event (Some (parsed version)) (hash version)
                             clientUrl w1 /\
    caches w1 = caches w /\ trace w1 = trace w.
Proof.
  intros Hh [(Hid & Hpin & Hfind) | (Hno & Hlast)].
  - exists w. repeat split.
    unfold sw_runtime.manifestBehavior. rewrite Hid.
    unfold bind, get; simpl. rewrite Hpin.
    unfold sw_runtime.getParsedManifestVersion, bind, get, ret; simpl.
    now rewrite Hh, Hfind.
  - unfold sw_runtime.manifestBehavior.
    destruct (nonempty (clientId event)) eqn:Hid.
    + destruct Hno as [Hno|Hno]; [discriminate|].
      exists (with_clients
                (store_set (clientId event)
                   (stored_hash (store_get (clientId event) (db_clients w)))
                   (db_clients w)) w).
      repeat split.
      unfold bind, get; simpl. rewrite Hno.
      unfold sw_runtime.saveClientIdAndHash. rewrite Hid.
      unfold sw_runtime.getLatestManifestVersion, bind, get, set, ret; simpl.
      now rewrite Hh, Hlast.
    + exists w. repeat split.
      unfold sw_runtime.getLatestManifestVersion, bind, get, ret; simpl.
      now rewrite Hh, Hlast.
Qed.

Lemma getClientUrlForEvent_pure (event : FetchEvent) :
  exists clientUrl,
    forall w, sw_runtime.getClientUrlForEvent P event w = (Return clientUrl, w).
Proof.
  unfold sw_runtime.getClientUrlForEvent, try_catch.
  destruct (clients_get P (clientId event)) as [client|].
  - exists (client_url client). reflexivity.
  - unfold throw.
    destruct (nonempty (req_referrer (request event)) &&
              negb (req_referrer (request event) =? "about:client")).
    + exists (req_referrer (request event)). reflexivity.
    + exists (req_url (request event)). reflexivity.
Qed.

(** A request that is subject to the manifest rules and whose client
    has a manifest bound is resolved by [manifestBehavior]. *)
Lemma appCacheBehaviorForEvent_bound (event : FetchEvent) (w : World)
  (clientUrl manifestUrl : string) :
  strictly_equal (headers_get (req_headers (request event)) "X-Use-Fetch")
                 "true" = false ->
  req_method (request event) = "GET" ->
  url_protocol P (req_url (request event)) = location_protocol P ->
  sw_runtime.getClientUrlForEvent P event w = (Return clientUrl, w) ->
  truthy (store_get clientUrl (db_paths w)) = Some manifestUrl ->
  sw_runtime.appCacheBehaviorForEvent P event w =
  sw_runtime.manifestBehavior P event manifestUrl clientUrl w.
Proof.
  intros Hx Hm Hp Hc Hb. unfold sw_runtime.appCacheBehaviorForEvent.
  rewrite Hx, Hm, Hp, !String.eqb_refl. simpl.
  unfold bind at 1. rewrite Hc. unfold bind, get; simpl. now rewrite Hb.
Qed.

End Sessions.

(** C8, as amended.  Take a GET request of the page's scheme, without
    the bypass header, from a client that has a manifest bound, and let
    [version] be the version it is resolved against.  Then:
    - when the URL is in the cache section or is the client URL,
      resolution completes normally with the result of the lookup in the
      cache of that version, which is empty when nothing is stored;
    - when a non-empty fallback key is a prefix of the URL (and the first
      case does not apply), resolution completes normally;
    - when the request matches nothing, resolution completes normally
      with [Response.error()]. *)
Theorem resolution_completes (P : Platform) (event : FetchEvent) (w : World)
  (clientUrl manifestUrl : string) (history : list ManifestVersion)
  (version : ManifestVersion) :
  strictly_equal (headers_get (req_headers (request event)) "X-Use-Fetch")
                 "true" = false ->
  req_method (request event) = "GET" ->
  url_protocol P (req_url (request event)) = location_protocol P ->
  sw_runtime.getClientUrlForEvent P event w = (Return clientUrl, w) ->
  truthy (store_get clientUrl (db_paths w)) = Some manifestUrl ->
  store_get manifestUrl (db_manifests w) = Some history ->
  version_in_use w event history version ->
  let manifest := parsed version in
  let requestUrl := req_url (request event) in
  (In requestUrl (cache manifest) \/ requestUrl = clientUrl ->
   exists w',
     sw_runtime.appCacheBehaviorForEvent P event w =
     (Return (storage_match requestUrl (Some (hash version)) (caches w)), w'))
  /\
  (~ In requestUrl (cache manifest) -> requestUrl <> clientUrl ->
   (exists key, In key (Object_keys (fallback manifest)) /\
                startsWith requestUrl key = true /\ key <> "") ->
   exists value w',
     sw_runtime.appCacheBehaviorForEvent P event w = (Return value, w'))
  /\
  (matches_nothing manifest requestUrl clientUrl ->
   exists w',
     sw_runtime.appCacheBehaviorForEvent P event w =
     (Return (Some Response_error), w')).
Proof.
  intros Hx Hm Hp Hc Hb Hh Hv manifest requestUrl.
  subst manifest requestUrl.
  rewrite (appCacheBehaviorForEvent_bound P event w clientUrl manifestUrl
             Hx Hm Hp Hc Hb).
  destruct (manifestBehavior_resolves P event manifestUrl clientUrl w
              history version Hh Hv) as (w1 & -> & Hcaches & _).
  split; [|split].
  - intros Hcache.
    rewrite (appCacheLogic_cache_branch P event (parsed version)
               (hash version) clientUrl w1 Hcache).
    rewrite Hcaches. eauto.
  - intros Hn Hu (key & Hin & Hs & Hne).
    destruct (appCacheLogic_fallback_branch P event (parsed version)
                (hash version) clientUrl key w1 Hn Hu Hin Hs Hne)
      as (longest & fallbackUrl & _ & _ & _ & _ & ->).
    rewrite fetchWithFallback_runs. eauto.
  - intros Hnothing.
    rewrite (appCacheLogic_no_match P event (parsed version) (hash version)
               clientUrl w1 Hnothing).
    eauto.
Qed.

Lemma resolution_completes_witness :
  let P := online "v1" [tab "c1"] in
  let event := event_for "https://x/b.js" "c1" in
  let version := {| hash := H1; parsed := manifest_v1 |} in
  let manifest := parsed version in
  let requestUrl := req_url (request event) in
  let clientUrl := "https://x/index.html" in
  (In requestUrl (cache manifest) \/ requestUrl = clientUrl ->
   exists w',
     sw_runtime.appCacheBehaviorForEvent P event loaded_v1 =
     (Return (storage_match requestUrl (Some (hash version))
                (caches loaded_v1)), w'))
  /\
  (~ In requestUrl (cache manifest) -> requestUrl <> clientUrl ->
   (exists key, In key (Object_keys (fallback manifest)) /\
                startsWith requestUrl key = true /\ key <> "") ->
   exists value w',
     sw_runtime.appCacheBehaviorForEvent P event loaded_v1 = (Return value, w'))
  /\
  (matches_nothing manifest requestUrl clientUrl ->
   exists w',
     sw_runtime.appCacheBehaviorForEvent P event loaded_v1 =
     (Return (Some Response_error), w')).
Proof.
  apply (resolution_completes (online "v1" [tab "c1"])
           (event_for "https://x/b.js" "c1") loaded_v1
           "https://x/index.html" app_manifest
           [{| hash := H1; parsed := manifest_v1 |}]
           {| hash := H1; parsed := manifest_v1 |});
    try reflexivity.
  right. split; [right|]; reflexivity.
Defined.

(** C8 as stated fails: the request [https://x/b.js] is in the cache
    section of the version in use, nothing is stored for it under that
    version, and resolution completes with [undefined], which is no
    response value. *)
Lemma resolution_without_response :
  In "https://x/b.js" (cache manifest_v2) /\
  sw_runtime.getLatestManifestVersion app_manifest (two_versions []) =
    (Return (Some {| hash := H2; parsed := manifest_v2 |}), two_versions []) /\
  storage_match "https://x/b.js" (Some H2) (caches (two_versions [])) = None /\
  fst (sw_runtime.appCacheBehaviorForEvent (online "v2" [tab "c1"])
         (event_for "https://x/b.js" "c1") (two_versions [])) = Return None.
Proof. split; [simpl; auto | repeat split; reflexivity]. Qed.

(** ** Sessions and pins *)

(** What [manifestBehavior] records for a session that has no hash yet
    is the value it has just read for it, which is not a hash: after the
    request the session still has none. *)
Lemma first_request_leaves_session_unpinned (P : Platform) (event : FetchEvent)
  (manifestUrl clientUrl : string) (w : World) :
  nonempty (clientId event) = true ->
  truthy (stored_hash (store_get (clientId event) (db_clients w))) = None ->
  exists w1,
    sw_runtime.manifestBehavior P event manifestUrl clientUrl w =
    sw_runtime.manifestBehavior P {| request := request event; clientId := "" |}
                                manifestUrl clientUrl w1 /\
    store_get (clientId event) (db_clients w1) =
      Some (stored_hash (store_get (clientId event) (db_clients w))) /\
    truthy (stored_hash (store_get (clientId event) (db_clients w1))) = None.
Proof.
  intros Hid Hno.
  exists (with_clients
            (store_set (clientId event)
               (stored_hash (store_get (clientId event) (db_clients w)))
               (db_clients w)) w).
  split; [|split].
  - unfold sw_runtime.manifestBehavior. rewrite Hid. simpl.
    unfold bind at 1. unfold get at 1. simpl. rewrite Hno.
    unfold sw_runtime.saveClientIdAndHash. rewrite Hid.
    unfold bind at 1. unfold set. simpl. reflexivity.
  - simpl. apply store_get_set_same.
  - simpl. rewrite store_get_set_same. exact Hno.
Qed.

(** C3, run on a concrete session.  The page is loaded while the
    manifest is at version [H1]; the session [c1] makes a first request;
    the manifest changes and version [H2] is appended; the session makes
    a second request.  After the first request the value recorded for the
    session is [undefined], not [H1], and the second request is answered
    from the cache of [H2], although the copy of [H1] is still there. *)
Theorem second_request_follows_the_update :
  let P1 := online "v1" [tab "c1"] in
  let P2 := online "v2" [tab "c1"] in
  let event := event_for "https://x/a.js" "c1" in
  let first := sw_runtime.fetch P1 event loaded_v1 in
  let updated :=
    with_trace []
      (snd (window_runtime.checkManifestVersion P2 app_manifest (snd first))) in
  let second := sw_runtime.fetch P2 event updated in
  fst first = Return (Some (page "https://x/a.js as of v1" "https://x/a.js")) /\
  store_get "c1" (db_clients (snd first)) = Some None /\
  map hash
    (match store_get app_manifest (db_manifests updated) with
     | Some history => history
     | None => []
     end) = [H1; H2] /\
  storage_match "https://x/a.js" (Some H1) (caches updated) =
    Some (page "https://x/a.js as of v1" "https://x/a.js") /\
  fst second = Return (Some (page "https://x/a.js as of v2" "https://x/a.js")) /\
  trace (snd second) = [EvCacheMatch "https://x/a.js" (Some H2)].
Proof. repeat split. Qed.

(** ** The path without a manifest *)

Lemma mapM_call_async (A B : Type) (body : A -> Async B) (l : list A) (w : World) :
  exists promises,
    mapM (fun x => sw_runtime.call_async (body x)) l w = (Return promises, w).
Proof.
  induction l as [|x rest [promises IH]]; simpl.
  - eexists. reflexivity.
  - unfold bind at 1. unfold sw_runtime.call_async at 1.
    unfold bind at 1. rewrite IH. eexists. reflexivity.
Qed.

Lemma reduce_keeps_initial (A B : Type) (array : list A) (initial : B) :
  sw_runtime.reduce_indexed (fun previous (_ : A) (_ : nat) => previous)
                            array initial = initial.
Proof.
  unfold sw_runtime.reduce_indexed.
  generalize (combine array (seq 0 (List.length array))).
  intros l. induction l as [|x rest IH]; simpl; auto.
Qed.

(** [noManifestBehavior] never selects a fallback: the elements it
    compares are promises, whose [length] is [undefined], so the reducer
    keeps its initial [{prefix: '', index: 0}] and the function ends in
    its last statement, [return fetch(event.request)], which rejects. *)
Lemma noManifestBehavior_runs (P : Platform) (event : FetchEvent) (w : World) :
  sw_runtime.noManifestBehavior P event w =
  (Throw TypeError, with_trace (trace w ++ [EvFetch (request event)]) w).
Proof.
  unfold sw_runtime.noManifestBehavior.
  unfold bind at 1. unfold keys at 1.
  unfold bind at 1.
  match goal with
  | |- context [mapM (fun x => sw_runtime.call_async (@?body x)) ?l w] =>
      destruct (mapM_call_async _ _ body l w) as [promises ->]
  end.
  simpl. rewrite reduce_keeps_initial. reflexivity.
Qed.

(** C7, run on a concrete request.  The client of the request has no
    manifest bound; the latest version of the one stored manifest has
    the fallback key [https://x/api/], a prefix of the request URL, and
    the fallback page is in that version's cache.  The resolver does not
    look the fallback up: it rejects with a [TypeError]. *)
Theorem no_manifest_path_ignores_fallbacks :
  let P := online "v1" [] in
  let event := event_for "https://x/api/widgets" "c9" in
  let result := sw_runtime.appCacheBehaviorForEvent P event loaded_v1 in
  sw_runtime.getClientUrlForEvent P event loaded_v1 =
    (Return "https://x/api/widgets", loaded_v1) /\
  store_get "https://x/api/widgets" (db_paths loaded_v1) = None /\
  sw_runtime.longestMatchingPrefix (Object_keys (fallback manifest_v1))
    "https://x/api/widgets" = "https://x/api/" /\
  storage_match "https://x/offline.html" (Some H1) (caches loaded_v1) =
    Some (page "https://x/offline.html as of v1" "https://x/offline.html") /\
  fst result = Throw TypeError /\
  trace (snd result) = [EvFetch (request event)].
Proof. repeat split. Qed.

(** ** The clean-up *)

Section Cleanup.

Variable P : Platform.

(** The loop of [cleanupClientIdAndHash]: the ids are deleted from the
    store, and the strings returned are the hashes that were recorded
    for them. *)
Lemma forget_clients_runs (ids : list string) (w : World) :
  exists hashes,
    mapM (fun id =>
            bind (get id CLIENT_ID_TO_HASH) (fun stored =>
            bind (del id CLIENT_ID_TO_HASH) (fun _ =>
            ret (stored_hash stored))))
         ids w =
    (Return hashes,
     with_clients (fold_left (fun s id => store_del id s) ids (db_clients w)) w)
    /\
    (forall h, In (Some h) hashes <->
               exists id, In id ids /\
                          store_get id (db_clients w) = Some (Some h)).
Proof.
  revert w. induction ids as [|id rest IH]; intros w.
  - exists []. split.
    + destruct w; reflexivity.
    + intros h. split; [intros [] | intros (id & [] & _)].
  - destruct (IH (with_clients (store_del id (db_clients w)) w))
      as (hashes & Hrun & Hspec).
    exists (stored_hash (store_get id (db_clients w)) :: hashes). split.
    + simpl mapM. unfold bind at 1. unfold bind at 1. unfold get at 1.
      unfold bind at 1. unfold del at 1. simpl.
      unfold bind at 1. simpl in Hrun. rewrite Hrun. reflexivity.
    + intros h. simpl in Hspec. split.
      * intros [Hhead|Htail].
        -- exists id. split; [now left|].
           destruct (store_get id (db_clients w)) as [v|]; simpl in Hhead;
             congruence.
        -- apply Hspec in Htail. destruct Htail as (id' & Hin & Hget).
           rewrite store_get_del in Hget.
           destruct (String.eqb id' id); [discriminate|].
           exists id'. split; [now right | assumption].
      * intros (id' & [<-|Hin] & Hget).
        -- left. now rewrite Hget.
        -- destruct (String.eqb_spec id' id) as [->|Hne].
           ++ left. now rewrite Hget.
           ++ right. apply Hspec. exists id'. split; [assumption|].
              rewrite store_get_del.
              destruct (String.eqb_spec id' id); [contradiction | assumption].
Qed.

Lemma older_versions_loop (manifestUrls : list string) (w : World) :
  (forall url, In url manifestUrls -> In url (store_keys (db_manifests w))) ->
  mapM (fun manifestUrl =>
          bind (get manifestUrl MANIFEST_URL_TO_CONTENTS) (fun manifests =>
          match manifests with
          | None => throw TypeError
          | Some manifests => ret (map hash (removelast manifests))
          end))
       manifestUrls w =
  (Return (map (older_hashes (db_manifests w)) manifestUrls), w).
Proof.
  induction manifestUrls as [|url rest IH]; intros Hkeys; [reflexivity|].
  simpl mapM. unfold bind at 1. unfold bind at 1. unfold get at 1. simpl.
  assert (Hk : In url (store_keys (db_manifests w))) by (apply Hkeys; now left).
  apply store_get_keys in Hk. destruct Hk as [history Hget].
  rewrite Hget. unfold ret at 1. unfold bind at 1.
  rewrite IH by (intros u Hu; apply Hkeys; now right).
  unfold older_hashes at 2. now rewrite Hget.
Qed.

Lemma getHashesOfOlderVersions_runs (w : World) :
  sw_runtime.getHashesOfOlderVersions w =
  (Return (concat (map (older_hashes (db_manifests w))
                       (store_keys (db_manifests w)))), w).
Proof.
  unfold sw_runtime.getHashesOfOlderVersions.
  unfold bind at 1. unfold keys at 1. simpl.
  unfold bind at 1. rewrite older_versions_loop by auto. reflexivity.
Qed.

Lemma in_older_hashes (manifests : Store (list ManifestVersion)) (h : string) :
  In h (concat (map (older_hashes manifests) (store_keys manifests))) <->
  exists manifestUrl history,
    store_get manifestUrl manifests = Some history /\
    In h (map hash (removelast history)).
Proof.
  rewrite in_concat. split.
  - intros (l & Hl & Hh). apply in_map_iff in Hl.
    destruct Hl as (url & <- & _). unfold older_hashes in Hh.
    destruct (store_get url manifests) as [history|] eqn:E; [|destruct Hh].
    eauto.
  - intros (url & history & Hget & Hh).
    exists (older_hashes manifests url). split.
    + apply in_map. apply store_get_keys. eauto.
    + unfold older_hashes. now rewrite Hget.
Qed.

Lemma delete_caches_runs (ids : list string) (w : World) :
  exists results,
    mapM caches_delete ids w =
    (Return results,
     with_trace (trace w ++ map EvCacheDelete ids)
       (with_caches (fold_left (fun cs id => storage_delete id cs) ids (caches w))
                    w)).
Proof.
  revert w. induction ids as [|id rest IH]; intros w.
  - exists []. simpl. rewrite app_nil_r. destruct w; reflexivity.
  - destruct (IH (with_caches (storage_delete id (caches w))
                    (with_trace (trace w ++ [EvCacheDelete id]) w)))
      as (results & Hrun).
    exists (tt :: results).
    simpl mapM. unfold bind at 1. unfold caches_delete at 1.
    unfold bind at 1. unfold log at 1. simpl.
    unfold bind at 1. simpl in Hrun. rewrite Hrun.
    unfold ret, with_trace, with_caches; simpl. now rewrite <- app_assoc.
Qed.

Lemma names_after_deletes (ids : list string) (cs : CacheStorage) (n : string) :
  In n (cache_names (fold_left (fun cs id => storage_delete id cs) ids cs)) <->
  In n (cache_names cs) /\ ~ In n ids.
Proof.
  revert cs. induction ids as [|id rest IH]; intros cs; simpl.
  - tauto.
  - rewrite IH. unfold cache_names, storage_delete.
    rewrite !in_map_iff. split.
    + intros (((n' & c) & E & Hin) & Hrest). simpl in E. subst n'.
      apply filter_In in Hin. destruct Hin as [Hin Hne]. simpl in Hne.
      apply negb_true_iff, String.eqb_neq in Hne.
      split; [exists (n, c); auto | intros [E|E]; [congruence | auto]].
    + intros (((n' & c) & E & Hin) & Hnot). simpl in E. subst n'.
      split; [|tauto]. exists (n, c). split; [reflexivity|].
      apply filter_In. split; [assumption|]. simpl.
      apply negb_true_iff, String.eqb_neq. intros E. apply Hnot. now left.
Qed.

(** A sweep that is not skipped deletes exactly the caches named by a
    hash that is both an older version of some manifest and recorded for
    a client that is not active. *)
Lemma cleanupOldCaches_spec (w : World) :
  cleanupInProgress w = false ->
  exists w',
    sw_runtime.cleanupOldCaches P w = (Return tt, w') /\
    cleanupInProgress w' = false /\
    db_manifests w' = db_manifests w /\
    forall n,
      In n (cache_names (caches w')) <->
      In n (cache_names (caches w)) /\
      ~ ((exists manifestUrl history,
             store_get manifestUrl (db_manifests w) = Some history /\
             In n (map hash (removelast history))) /\
         (exists id, ~ In id (map client_id (clients_matchAll P)) /\
                     store_get id (db_clients w) = Some (Some n))).
Proof.
  intros Hflag. unfold sw_runtime.cleanupOldCaches. rewrite Hflag.
  set (active := map client_id (clients_matchAll P)).
  unfold sw_runtime.cleanupClientIdAndHash.
  unfold bind at 1. unfold bind at 1. unfold keys at 1. simpl.
  destruct (forget_clients_runs
              (filter (fun id => negb (includes active id))
                      (store_keys (db_clients w)))
              (with_cleanupInProgress true w)) as (notInUse & Hrun & Hspec).
  simpl in Hrun, Hspec. rewrite Hrun. clear Hrun.
  unfold bind at 1. rewrite getHashesOfOlderVersions_runs. simpl.
  unfold bind at 1.
  match goal with
  | |- context [mapM caches_delete ?ids ?w0] =>
      destruct (delete_caches_runs ids w0) as (results & ->)
  end.
  simpl. eexists. split; [reflexivity|]. simpl.
  split; [reflexivity|]. split; [reflexivity|]. intros n. split.
  - intros Hn. apply names_after_deletes in Hn. destruct Hn as [Hin Hn].
    split; [assumption|].
    intros [Hold (id & Hid & Hget)]. apply Hn. apply filter_In. split.
    + now apply in_older_hashes.
    + apply includes_opt_In, Hspec. exists id. split; [|assumption].
      apply filter_In. split.
      * apply store_get_keys. eauto.
      * apply negb_true_iff. now apply includes_false.
  - intros [Hn Hnot]. apply names_after_deletes. split; [assumption|].
    intros Hdel. apply filter_In in Hdel. destruct Hdel as [Hold Huse].
    apply Hnot. split.
    + now apply in_older_hashes.
    + apply includes_opt_In, Hspec in Huse. destruct Huse as (id & Hid & Hget).
      apply filter_In in Hid. destruct Hid as [_ Hid].
      apply negb_true_iff, includes_false in Hid. eauto.
Qed.

End Cleanup.


(** The clean-up on a store in which hashes are recorded, which no
    code of the two modules writes.  The manifest has the versions [H1]
    and [H2]; the sessions [c1] and [c2] both have [H1] recorded; only
    [c1] is among the clients of the service worker.  The sweep deletes
    the cache [H1]. *)
Example sweep_with_recorded_hashes :
  let P := online "v2" [tab "c1"] in
  let w := two_versions [("c1", Some H1); ("c2", Some H1)] in
  let after := snd (sw_runtime.cleanupOldCaches P w) in
  map client_id (clients_matchAll P) = ["c1"] /\
  store_get "c1" (db_clients w) = Some (Some H1) /\
  store_get "c2" (db_clients w) = Some (Some H1) /\
  cache_names (caches w) = [H1; H2] /\
  cache_names (caches after) = [H2] /\
  store_get "c1" (db_clients after) = Some (Some H1).
Proof. repeat split. Qed.

(** C6, as amended.  Let [h] be the hash of a version that is not the
    last of its manifest's history and that is recorded for no active
    session.  A sweep that is not skipped deletes the cache [h] when [h]
    is recorded for some session in [CLIENT_ID_TO_HASH], and keeps it
    when [h] is recorded for none. *)
Theorem sweep_deletes_freed_older_version (P : Platform) (w : World)
  (manifestUrl : string) (history : list ManifestVersion) (h : string) :
  cleanupInProgress w = false ->
  store_get manifestUrl (db_manifests w) = Some history ->
  In h (map hash (removelast history)) ->
  (forall id, In id (map client_id (clients_matchAll P)) ->
              store_get id (db_clients w) <> Some (Some h)) ->
  let after := snd (sw_runtime.cleanupOldCaches P w) in
  ((exists id, store_get id (db_clients w) = Some (Some h)) ->
   ~ In h (cache_names (caches after))) /\
  ((forall id, store_get id (db_clients w) <> Some (Some h)) ->
   In h (cache_names (caches w)) ->
   In h (cache_names (caches after))).
Proof.
  intros Hflag Hget Hold Hnone after. subst after.
  destruct (cleanupOldCaches_spec P w Hflag) as (w' & -> & _ & _ & Hnames).
  simpl. split.
  - intros (id & Hid) Hin. apply Hnames in Hin. destruct Hin as [_ Hnot].
    apply Hnot. split; [eauto|].
    exists id. split; [|assumption]. intros Hact. exact (Hnone id Hact Hid).
  - intros Hnever Hin. apply Hnames. split; [assumption|].
    intros [_ (id & _ & Hid)]. exact (Hnever id Hid).
Qed.

Lemma sweep_deletes_freed_older_version_witness :
  let P := online "v2" [tab "c1"] in
  let w := two_versions [("c2", Some H1)] in
  let after := snd (sw_runtime.cleanupOldCaches P w) in
  ((exists id, store_get id (db_clients w) = Some (Some H1)) ->
   ~ In H1 (cache_names (caches after))) /\
  ((forall id, store_get id (db_clients w) <> Some (Some H1)) ->
   In H1 (cache_names (caches w)) ->
   In H1 (cache_names (caches after))).
Proof.
  apply (sweep_deletes_freed_older_version (online "v2" [tab "c1"])
           (two_versions [("c2", Some H1)]) app_manifest
           [ {| hash := H1; parsed := manifest_v1 |};
             {| hash := H2; parsed := manifest_v2 |} ] H1).
  - reflexivity.
  - reflexivity.
  - simpl. left. reflexivity.
  - simpl. intros id [<-|[]]. discriminate.
Defined.

(** C6 as stated fails: [H1] is not the last version of its manifest,
    no session at all has it recorded and no client is active, and the
    sweep leaves the cache [H1] in place. *)
Lemma never_pinned_version_survives_sweep :
  let P := online "v2" [] in
  let w := two_versions [] in
  let after := sw_runtime.cleanupOldCaches P w in
  cleanupInProgress w = false /\
  map hash
    (match store_get app_manifest (db_manifests w) with
     | Some history => removelast history
     | None => []
     end) = [H1] /\
  db_clients w = [] /\
  clients_matchAll P = [] /\
  fst after = Return tt /\
  In H1 (cache_names (caches (snd after))).
Proof. repeat split. simpl. now left. Qed.


(** ** The update of a manifest *)

(** *** [Promise.all] *)

Lemma Promise_all_world (A : Type) (operations : list (Async A)) (w : World) :
  snd (Promise_all operations w) =
  fold_left (fun (w0 : World) (operation : Async A) => snd (operation w0))
            operations w.
Proof.
  revert w. induction operations as [|operation rest IH]; intros w; simpl;
    [reflexivity|].
  destruct (operation w) as [[a|e] w1]; simpl.
  - rewrite <- IH. now destruct (Promise_all rest w1) as [[results|e] w2].
  - apply IH.
Qed.

Lemma fold_left_over_map (A B C : Type) (f : A -> C -> A) (g : B -> C)
  (l : list B) (a : A) :
  fold_left f (map g l) a = fold_left (fun x y => f x (g y)) l a.
Proof. revert a. induction l; intros a0; simpl; auto. Qed.

(** A rejection of [Promise.all] is the rejection of one of its
    operations. *)
Lemma Promise_all_throws (A : Type) (operations : list (Async A)) (w : World)
  (e : JsError) :
  fst (Promise_all operations w) = Throw e ->
  exists operation w0, In operation operations /\ fst (operation w0) = Throw e.
Proof.
  revert w. induction operations as [|operation rest IH]; intros w; simpl;
    [discriminate|].
  destruct (operation w) as [[a|e0] w1] eqn:Hop; simpl.
  - destruct (Promise_all rest w1) as [[results|e1] w2] eqn:Hrest; simpl;
      [discriminate|].
    intros E. destruct (IH w1) as (op & w0 & Hin & Hthrow);
      [now rewrite Hrest|].
    exists op, w0. auto.
  - intros E. injection E as <-. exists operation, w.
    split; [now left|]. now rewrite Hop.
Qed.

(** When one operation rejects in every world, so does [Promise.all]. *)
Lemma Promise_all_rejects (A : Type) (operations : list (Async A)) (w : World)
  (operation : Async A) :
  In operation operations ->
  (forall w0, exists e, fst (operation w0) = Throw e) ->
  exists e, fst (Promise_all operations w) = Throw e.
Proof.
  revert w. induction operations as [|first rest IH]; intros w Hin Hrej;
    [destruct Hin|].
  simpl. destruct (first w) as [[a|e0] w1] eqn:Hop; simpl.
  - destruct Hin as [->|Hin].
    + destruct (Hrej w) as [e He]. rewrite Hop in He. discriminate.
    + destruct (IH w1 Hin Hrej) as [e He].
      destruct (Promise_all rest w1) as [[results|e1] w2]; simpl in *;
        [discriminate | eauto].
  - eauto.
Qed.

(** When every operation returns in the worlds of an invariant it
    keeps, [Promise.all] returns. *)
Lemma Promise_all_returns (A : Type) (good : World -> Prop)
  (operations : list (Async A)) (w : World) :
  (forall operation w0, In operation operations -> good w0 ->
     (exists a, fst (operation w0) = Return a) /\ good (snd (operation w0))) ->
  good w ->
  (exists results, fst (Promise_all operations w) = Return results) /\
  good (snd (Promise_all operations w)).
Proof.
  revert w. induction operations as [|operation rest IH]; intros w Hops Hgood.
  - simpl. eauto.
  - destruct (Hops operation w (or_introl eq_refl) Hgood) as [[a Ha] Hnext].
    simpl. destruct (operation w) as [[a'|e] w1]; simpl in *; [|discriminate].
    destruct (IH w1) as [[results Hres] Hend]; [|exact Hnext|].
    + intros op w0 Hin. apply Hops. now right.
    + destruct (Promise_all rest w1) as [[results'|e] w2]; simpl in *;
        [eauto | discriminate].
Qed.

(** *** The caches *)

Lemma prop_get_In (V : Type) (object : list (string * V)) (key : string)
  (value : V) :
  prop_get object key = Some value -> In (key, value) object.
Proof.
  induction object as [|[k v] rest IH]; simpl; [discriminate|].
  destruct (String.eqb_spec key k) as [->|Hne].
  - intros E. injection E as ->. now left.
  - auto.
Qed.

Lemma wellformed_match_any (P : Platform) (cs : CacheStorage) (url : string)
  (cached : Response) :
  caches_wellformed P cs = true ->
  storage_match_any url cs = Some cached ->
  cache_accepts P url cached = true.
Proof.
  unfold caches_wellformed. induction cs as [|[name c] rest IH]; simpl;
    [discriminate|].
  intros Hwf. apply andb_true_iff in Hwf. destruct Hwf as [Hc Hrest].
  destruct (prop_get c url) as [r|] eqn:Hget.
  - intros E. injection E as ->. apply prop_get_In in Hget.
    rewrite forallb_forall in Hc. exact (Hc _ Hget).
  - now apply IH.
Qed.

Lemma wellformed_put (P : Platform) (cs : CacheStorage) (name url : string)
  (r : Response) :
  caches_wellformed P cs = true -> cache_accepts P url r = true ->
  caches_wellformed P (storage_put name url r cs) = true.
Proof.
  unfold caches_wellformed. intros Hwf Hr.
  induction cs as [|[n c] rest IH]; simpl in *; [reflexivity|].
  apply andb_true_iff in Hwf. destruct Hwf as [Hc Hrest].
  destruct (String.eqb name n); simpl.
  - rewrite Hrest, andb_true_r. clear - Hc Hr.
    induction c as [|[k v] c IH]; simpl in *.
    + now rewrite Hr.
    + apply andb_true_iff in Hc. destruct Hc as [Hkv Hc].
      destruct (String.eqb_spec url k) as [<-|Hne]; simpl.
      * now rewrite Hr, Hc.
      * now rewrite Hkv, IH.
  - now rewrite Hc, IH.
Qed.

Lemma wellformed_open (P : Platform) (cs : CacheStorage) (name : string) :
  caches_wellformed P cs = true ->
  caches_wellformed P (storage_open name cs) = true.
Proof.
  unfold caches_wellformed, storage_open. intros Hwf.
  destruct (prop_get cs name); [exact Hwf|].
  rewrite forallb_app. apply andb_true_iff. split; [exact Hwf | reflexivity].
Qed.

(** *** One URL *)

Section OneUrl.

Variable P : Platform.
Variable hash : string.

Let asked (url : string) : Request :=
  window_runtime.direct_request url "manual" "default".

Lemma cache_put_run (url : string) (r : Response) (w : World) :
  cache_put P hash url r w =
  if cache_accepts P url r
  then (Return tt,
        with_caches (storage_put hash url r (caches w))
          (with_trace (trace w ++ [EvCachePut hash url]) w))
  else (Throw TypeError, w).
Proof.
  unfold cache_put. now destruct (cache_accepts P url r).
Qed.

(** The [catch] block, entered after the request was made. *)
Lemma catch_block_run (url : string) (w : World) :
  bind (caches_match url None)
       (fun response =>
          match response with
          | Some response => cache_put P hash url response
          | None => ret tt
          end)
       (after_skip url w) =
  attempt_copy P hash url w.
Proof.
  unfold attempt_copy, after_copy, after_lookup, after_skip, caches_match,
    bind, log, ret. simpl. unfold storage_match.
  destruct (storage_match_any url (caches w)) as [cached|]; simpl.
  - rewrite cache_put_run. destruct (cache_accepts P url cached); simpl.
    + unfold with_caches, with_trace; simpl. now rewrite <- !app_assoc.
    + unfold with_trace; simpl. now rewrite <- !app_assoc.
  - unfold with_trace; simpl. now rewrite <- !app_assoc.
Qed.

(** What [addToCache] does for one URL. *)
Lemma addToCache_url_run (url : string) (w : World) :
  window_runtime.addToCache_url P hash url w =
  if request_constructible P url then
    match network_fetch P (asked url) with
    | Some r =>
        if declares_no_store r then (Return tt, after_skip url w)
        else if ok r then
          if cache_accepts P url r then (Return tt, after_store hash url r w)
          else attempt_copy P hash url w
        else if negb (res_status r =? 404)%nat && negb (res_status r =? 410)%nat
        then attempt_copy P hash url w
        else (Return tt, after_skip url w)
    | None => attempt_copy P hash url w
    end
  else (Throw TypeError, w).
Proof.
  unfold window_runtime.addToCache_url.
  destruct (request_constructible P url); [|reflexivity]. simpl.
  rewrite <- catch_block_run.
  unfold try_catch, window_runtime.fetch. unfold bind at 1. unfold bind at 1.
  unfold log at 1. simpl. fold (asked url).
  destruct (network_fetch P (asked url)) as [r|]; simpl.
  - unfold ret at 1. fold (declares_no_store r).
    destruct (declares_no_store r); [reflexivity|].
    destruct (ok r).
    + rewrite cache_put_run. destruct (cache_accepts P url r).
      * unfold after_store, with_caches, with_trace; simpl.
        now rewrite <- !app_assoc.
      * reflexivity.
    + destruct (negb (res_status r =? 404)%nat
                && negb (res_status r =? 410)%nat); reflexivity.
  - reflexivity.
Qed.

End OneUrl.

(** *** Objects and Cache Storage *)

Lemma prop_get_set_same (V : Type) (object : list (string * V)) (key : string)
  (value : V) :
  prop_get (prop_set object key value) key = Some value.
Proof.
  induction object as [|[k v] rest IH]; simpl.
  - now rewrite String.eqb_refl.
  - destruct (String.eqb_spec key k) as [->|Hne]; simpl.
    + now rewrite String.eqb_refl.
    + destruct (String.eqb_spec key k); [contradiction | exact IH].
Qed.

Lemma prop_get_set_other (V : Type) (object : list (string * V))
  (key key' : string) (value : V) :
  key' <> key ->
  prop_get (prop_set object key value) key' = prop_get object key'.
Proof.
  intros Hne. induction object as [|[k v] rest IH]; simpl.
  - destruct (String.eqb_spec key' key); [contradiction | reflexivity].
  - destruct (String.eqb_spec key k) as [->|Hk]; simpl.
    + destruct (String.eqb_spec key' k); [contradiction | reflexivity].
    + now rewrite IH.
Qed.

Lemma storage_put_same (name url : string) (r : Response) (cs : CacheStorage) :
  prop_get (storage_put name url r cs) name =
  option_map (fun c => prop_set c url r) (prop_get cs name).
Proof.
  induction cs as [|[n c] rest IH]; simpl; [reflexivity|].
  destruct (String.eqb_spec name n) as [->|Hne]; simpl.
  - now rewrite String.eqb_refl.
  - destruct (String.eqb_spec name n); [contradiction | exact IH].
Qed.

Lemma storage_put_other (name name' url : string) (r : Response)
  (cs : CacheStorage) :
  name' <> name ->
  prop_get (storage_put name url r cs) name' = prop_get cs name'.
Proof.
  intros Hne. induction cs as [|[n c] rest IH]; simpl; [reflexivity|].
  destruct (String.eqb_spec name n) as [->|Hn]; simpl.
  - destruct (String.eqb_spec name' n); [contradiction | reflexivity].
  - now rewrite IH.
Qed.

Lemma prop_get_app (V : Type) (o1 o2 : list (string * V)) (key : string) :
  prop_get (o1 ++ o2) key =
  match prop_get o1 key with
  | Some v => Some v
  | None => prop_get o2 key
  end.
Proof.
  induction o1 as [|[k v] rest IH]; simpl; [reflexivity|].
  now destruct (String.eqb key k).
Qed.

Lemma storage_open_same (name : string) (cs : CacheStorage) :
  prop_get (storage_open name cs) name =
  match prop_get cs name with
  | Some c => Some c
  | None => Some []
  end.
Proof.
  unfold storage_open. destruct (prop_get cs name) as [c|] eqn:E.
  - exact E.
  - rewrite prop_get_app, E. simpl. now rewrite String.eqb_refl.
Qed.

Lemma storage_open_other (name name' : string) (cs : CacheStorage) :
  name' <> name -> prop_get (storage_open name cs) name' = prop_get cs name'.
Proof.
  intros Hne. unfold storage_open. destruct (prop_get cs name); [reflexivity|].
  rewrite prop_get_app. destruct (prop_get cs name'); [reflexivity|].
  simpl. destruct (String.eqb_spec name' name); [contradiction | reflexivity].
Qed.

(** *** [addToCache] *)

Section Materialize.

Variable P : Platform.
Variable hash : string.

Let asked (url : string) : Request :=
  window_runtime.direct_request url "manual" "default".

(** The events of the step for [url]. *)
Let handles (url : string) (ev : Effect) : Prop :=
  ev = EvFetch (asked url) \/ ev = EvCacheMatch url None \/
  ev = EvCachePut hash url.

(** What holds of every outcome of the step for a URL for which a
    request can be constructed. *)
Let shape (url : string) (w : World) (run : Completion unit * World) : Prop :=
  same_stores w (snd run) /\
  (fst run = Return tt \/ fst run = Throw TypeError) /\
  (caches (snd run) = caches w \/
   exists x, cache_accepts P url x = true /\
             caches (snd run) = storage_put hash url x (caches w)) /\
  (exists evs, trace (snd run) = trace w ++ evs /\
               (forall ev, In ev evs -> handles url ev) /\
               In (EvFetch (asked url)) evs) /\
  (caches_wellformed P (caches w) = true -> fst run = Return tt).

Lemma shape_skip (url : string) (w : World) :
  shape url w (Return tt, after_skip url w).
Proof.
  unfold shape, after_skip. simpl. repeat split; auto.
  exists [EvFetch (asked url)]. repeat split.
  - intros ev [<-|[]]. now left.
  - now left.
Qed.

Lemma shape_store (url : string) (r : Response) (w : World) :
  cache_accepts P url r = true ->
  shape url w (Return tt, after_store hash url r w).
Proof.
  intros Hr. unfold shape, after_store. simpl. repeat split; auto.
  - right. exists r. auto.
  - exists [EvFetch (asked url); EvCachePut hash url]. repeat split.
    + unfold handles. intros ev [<-|[<-|[]]]; auto.
    + now left.
Qed.

Lemma shape_copy (url : string) (w : World) :
  shape url w (attempt_copy P hash url w).
Proof.
  unfold shape, attempt_copy, after_copy, after_lookup.
  destruct (storage_match_any url (caches w)) as [cached|] eqn:Hmatch.
  - destruct (cache_accepts P url cached) eqn:Hacc; simpl.
    + repeat split; auto.
      * right. exists cached. auto.
      * exists [EvFetch (asked url); EvCacheMatch url None;
                EvCachePut hash url]. repeat split.
        -- unfold handles. intros ev [<-|[<-|[<-|[]]]]; auto.
        -- now left.
    + repeat split; auto.
      * exists [EvFetch (asked url); EvCacheMatch url None]. repeat split.
        -- unfold handles. intros ev [<-|[<-|[]]]; auto.
        -- now left.
      * intros Hwf. rewrite (wellformed_match_any P _ _ _ Hwf Hmatch) in Hacc.
        discriminate.
  - simpl. repeat split; auto.
    exists [EvFetch (asked url); EvCacheMatch url None]. repeat split.
    + unfold handles. intros ev [<-|[<-|[]]]; auto.
    + now left.
Qed.

Lemma addToCache_url_shape (url : string) (w : World) :
  request_constructible P url = true ->
  shape url w (window_runtime.addToCache_url P hash url w) /\
  (forall r, network_fetch P (asked url) = Some r ->
             declares_no_store r = false -> ok r = true ->
             cache_accepts P url r = true ->
             window_runtime.addToCache_url P hash url w =
             (Return tt, after_store hash url r w)).
Proof.
  intros Hc. rewrite addToCache_url_run, Hc. fold (asked url). split.
  - destruct (network_fetch P (asked url)) as [r|]; [|apply shape_copy].
    destruct (declares_no_store r); [apply shape_skip|].
    destruct (ok r).
    + destruct (cache_accepts P url r) eqn:Hacc;
        [now apply shape_store | apply shape_copy].
    + destruct (negb (res_status r =? 404)%nat
                && negb (res_status r =? 410)%nat);
        [apply shape_copy | apply shape_skip].
  - intros r -> -> -> ->. reflexivity.
Qed.

(** The facts about one step that the loop needs, for any URL. *)
Lemma addToCache_url_step (url : string) (w : World) :
  let run := window_runtime.addToCache_url P hash url w in
  same_stores w (snd run) /\
  (fst run = Return tt \/ fst run = Throw TypeError) /\
  (caches (snd run) = caches w \/
   exists x, cache_accepts P url x = true /\
             caches (snd run) = storage_put hash url x (caches w)) /\
  (exists evs, trace (snd run) = trace w ++ evs /\
               (forall ev, In ev evs ->
                  request_constructible P url = true /\ handles url ev) /\
               (request_constructible P url = true ->
                In (EvFetch (asked url)) evs)).
Proof.
  destruct (request_constructible P url) eqn:Hc.
  - destruct (addToCache_url_shape url w Hc) as [(A & B & C & D & _) _].
    cbv zeta. split; [exact A|]. split; [exact B|]. split; [exact C|].
    destruct D as (evs & Ht & Hp & Hf). exists evs. auto.
  - cbv zeta. rewrite addToCache_url_run, Hc. simpl.
    repeat split; auto.
    exists []. rewrite app_nil_r. split; [reflexivity|].
    split; [intros ev [] | discriminate].
Qed.

(** The world after the steps for a list of URLs. *)
Let steps (urls : list string) (w : World) : World :=
  fold_left (fun w0 url => snd (window_runtime.addToCache_url P hash url w0))
            urls w.

Lemma steps_keep (urls : list string) (w : World) :
  same_stores w (steps urls w) /\
  (forall n, n <> hash ->
     prop_get (caches (steps urls w)) n = prop_get (caches w) n) /\
  (prop_get (caches w) hash <> None ->
   prop_get (caches (steps urls w)) hash <> None) /\
  (caches_wellformed P (caches w) = true ->
   caches_wellformed P (caches (steps urls w)) = true) /\
  (exists evs, trace (steps urls w) = trace w ++ evs /\
               (forall ev, In ev evs ->
                  exists url, In url urls /\
                              request_constructible P url = true /\
                              handles url ev) /\
               forall url, In url urls -> request_constructible P url = true ->
                           In (EvFetch (asked url)) evs).
Proof.
  revert w. induction urls as [|url rest IH]; intros w.
  - unfold steps. simpl. repeat split; auto.
    exists []. rewrite app_nil_r. split; [reflexivity|].
    split; [intros ev [] | intros url []].
  - destruct (addToCache_url_step url w) as (Hs1 & _ & Hc1 & evs1 & Ht1 & Hp1 & Hf1).
    set (w1 := snd (window_runtime.addToCache_url P hash url w)) in *.
    destruct (IH w1) as (Hs2 & Ho2 & He2 & Hw2 & evs2 & Ht2 & Hp2 & Hf2).
    change (steps (url :: rest) w) with (steps rest w1).
    split; [|split; [|split; [|split]]].
    + destruct Hs1 as (A1 & B1 & C1 & D1). destruct Hs2 as (A2 & B2 & C2 & D2).
      repeat split; congruence.
    + intros n Hn. rewrite (Ho2 n Hn).
      destruct Hc1 as [->|(x & _ & ->)]; [reflexivity|].
      now apply storage_put_other.
    + intros Hex. apply He2. destruct Hc1 as [->|(x & _ & ->)]; [exact Hex|].
      rewrite storage_put_same.
      destruct (prop_get (caches w) hash); [discriminate | contradiction].
    + intros Hwf. apply Hw2. destruct Hc1 as [->|(x & Hx & ->)]; [exact Hwf|].
      now apply wellformed_put.
    + exists (evs1 ++ evs2). split; [|split].
      * rewrite Ht2, Ht1. now rewrite app_assoc.
      * intros ev Hin. apply in_app_or in Hin. destruct Hin as [Hin|Hin].
        -- exists url. destruct (Hp1 ev Hin) as [Hc Hev].
           split; [now left | auto].
        -- destruct (Hp2 ev Hin) as (u & Hu & Hc & Hev).
           exists u. split; [now right | auto].
      * intros u [<-|Hin] Hc; apply in_or_app; [left; auto | right; auto].
Qed.

(** A response stored by one step is still there after the others. *)
Lemma steps_round_trip (urls : list string) (w : World) (u : string)
  (r : Response) :
  request_constructible P u = true ->
  network_fetch P (asked u) = Some r ->
  declares_no_store r = false -> ok r = true ->
  cache_accepts P u r = true ->
  prop_get (caches w) hash <> None ->
  In u urls \/ storage_match u (Some hash) (caches w) = Some r ->
  storage_match u (Some hash) (caches (steps urls w)) = Some r.
Proof.
  intros Hc Hnet Hns Hok Hacc. revert w.
  induction urls as [|url rest IH]; intros w Hex Hin.
  - destruct Hin as [[]|H]. exact H.
  - change (steps (url :: rest) w)
      with (steps rest (snd (window_runtime.addToCache_url P hash url w))).
    destruct (addToCache_url_step url w) as (_ & _ & Hc1 & _).
    apply IH.
    + destruct Hc1 as [->|(x & _ & ->)]; [exact Hex|].
      rewrite storage_put_same.
      destruct (prop_get (caches w) hash); [discriminate | contradiction].
    + destruct (String.eqb_spec u url) as [<-|Hne].
      * right.
        destruct (addToCache_url_shape u w Hc) as [_ Hstore].
        rewrite (Hstore r Hnet Hns Hok Hacc). simpl. unfold storage_match.
        rewrite storage_put_same.
        destruct (prop_get (caches w) hash) as [c|]; [|contradiction].
        simpl. apply prop_get_set_same.
      * destruct Hin as [[E|Hin]|Hentry]; [congruence | now left | right].
        destruct Hc1 as [->|(x & _ & ->)]; [exact Hentry|].
        unfold storage_match in *. rewrite storage_put_same.
        destruct (prop_get (caches w) hash) as [c|]; [|discriminate].
        simpl. now rewrite prop_get_set_other.
Qed.

(** The world and the outcome of [addToCache]. *)
Lemma addToCache_run (urls : list string) (w : World) :
  let opened := with_caches (storage_open hash (caches w)) w in
  snd (window_runtime.addToCache P hash urls w) = steps urls opened /\
  (fst (window_runtime.addToCache P hash urls w) = Return tt \/
   fst (window_runtime.addToCache P hash urls w) = Throw TypeError) /\
  ((forall url, In url urls -> request_constructible P url = true) ->
   caches_wellformed P (caches w) = true ->
   fst (window_runtime.addToCache P hash urls w) = Return tt) /\
  ((exists url, In url urls /\ request_constructible P url = false) ->
   fst (window_runtime.addToCache P hash urls w) = Throw TypeError).
Proof.
  intros opened.
  assert (Hrun : window_runtime.addToCache P hash urls w =
                 (match fst (Promise_all
                               (map (window_runtime.addToCache_url P hash) urls)
                               opened) with
                  | Return _ => Return tt
                  | Throw e => Throw e
                  end,
                  steps urls opened)).
  { unfold window_runtime.addToCache. unfold bind at 1.
    unfold caches_open at 1. cbv beta iota. fold opened.
    unfold bind at 1. unfold steps.
    rewrite <- (fold_left_over_map _ _ _
                  (fun (w0 : World) (operation : Async unit) =>
                     snd (operation w0))
                  (window_runtime.addToCache_url P hash)).
    rewrite <- Promise_all_world.
    destruct (Promise_all (map (window_runtime.addToCache_url P hash) urls)
                opened) as [[results|e] w']; reflexivity. }
  assert (Hkind : forall e,
             fst (Promise_all (map (window_runtime.addToCache_url P hash) urls)
                    opened) = Throw e -> e = TypeError).
  { intros e He. apply Promise_all_throws in He.
    destruct He as (operation & w0 & Hin & Hthrow).
    apply in_map_iff in Hin. destruct Hin as (url & <- & _).
    destruct (addToCache_url_step url w0) as (_ & [Hk|Hk] & _);
      rewrite Hk in Hthrow; congruence. }
  rewrite Hrun. simpl. split; [reflexivity|]. split; [|split].
  - destruct (fst (Promise_all _ opened)) as [results|e] eqn:E; [now left|].
    right. now rewrite (Hkind e eq_refl).
  - intros Hall Hwf.
    destruct (Promise_all_returns _
                (fun w0 => caches_wellformed P (caches w0) = true)
                (map (window_runtime.addToCache_url P hash) urls) opened)
      as [[results Hres] _].
    + intros operation w0 Hin Hgood. apply in_map_iff in Hin.
      destruct Hin as (url & <- & Hin).
      destruct (addToCache_url_shape url w0 (Hall url Hin))
        as [(_ & _ & Hc & _ & Hret) _].
      split; [exists tt; now apply Hret|].
      destruct Hc as [->|(x & Hx & ->)]; [exact Hgood|].
      now apply wellformed_put.
    + simpl. now apply wellformed_open.
    + now rewrite Hres.
  - intros (url & Hin & Hc).
    destruct (Promise_all_rejects _
                (map (window_runtime.addToCache_url P hash) urls) opened
                (window_runtime.addToCache_url P hash url)) as [e He].
    + now apply in_map.
    + intros w0. exists TypeError. now rewrite addToCache_url_run, Hc.
    + rewrite He. now rewrite (Hkind e He).
Qed.

(** What [addToCache] keeps and what it establishes. *)
Lemma addToCache_effect (urls : list string) (w : World) :
  let w' := snd (window_runtime.addToCache P hash urls w) in
  same_stores w w' /\
  (forall n, n <> hash -> prop_get (caches w') n = prop_get (caches w) n) /\
  prop_get (caches w') hash <> None /\
  (caches_wellformed P (caches w) = true ->
   caches_wellformed P (caches w') = true) /\
  (forall u r, In u urls -> request_constructible P u = true ->
               network_fetch P (asked u) = Some r ->
               declares_no_store r = false -> ok r = true ->
               cache_accepts P u r = true ->
               storage_match u (Some hash) (caches w') = Some r) /\
  (exists evs, trace w' = trace w ++ evs /\
               (forall ev, In ev evs ->
                  exists u, In u urls /\ request_constructible P u = true /\
                            handles u ev) /\
               forall u, In u urls -> request_constructible P u = true ->
                         In (EvFetch (asked u)) evs).
Proof.
  cbv zeta. destruct (addToCache_run urls w) as (-> & _).
  set (opened := with_caches (storage_open hash (caches w)) w).
  destruct (steps_keep urls opened) as (Hs & Ho & He & Hw & Ht).
  assert (Hopen : prop_get (caches opened) hash <> None).
  { simpl. rewrite storage_open_same.
    destruct (prop_get (caches w) hash); discriminate. }
  split; [exact Hs|]. split; [|split; [|split; [|split]]].
  - intros n Hn. rewrite (Ho n Hn). simpl. now apply storage_open_other.
  - auto.
  - intros Hwf. apply Hw. simpl. now apply wellformed_open.
  - intros u r Hin Hc Hnet Hns Hok Hacc.
    apply steps_round_trip; auto.
  - exact Ht.
Qed.

End Materialize.

(** *** [performManifestUpdate] *)

Section Versions.

Variable P : Platform.

Lemma prop_get_some_key (V : Type) (object : list (string * V)) (key : string)
  (value : V) :
  prop_get object key = Some value -> In key (Object_keys object).
Proof.
  induction object as [|[k v] rest IH]; simpl; [discriminate|].
  destruct (String.eqb_spec key k) as [->|Hne]; [now left | auto].
Qed.

(** The pages found by the loop over [PATH_TO_MANIFEST] are the ones
    associated with the manifest. *)
Lemma master_entries_spec (manifestUrl : string) (urls : list string) (w : World) :
  exists entries,
    mapM (fun url =>
            bind (get url PATH_TO_MANIFEST) (fun possibleManifestUrl =>
            match possibleManifestUrl with
            | Some possibleManifestUrl =>
                if possibleManifestUrl =? manifestUrl then ret [url]
                else ret []
            | None => ret []
            end))
         urls w = (Return entries, w) /\
    forall page, In page (concat entries) <->
                 In page urls /\
                 store_get page (db_paths w) = Some manifestUrl.
Proof.
  induction urls as [|url rest (entries & IH & Hspec)]; simpl.
  - exists []. split; [reflexivity | simpl; tauto].
  - unfold bind at 1. unfold bind at 1. unfold get at 1. simpl.
    destruct (store_get url (db_paths w)) as [m|] eqn:Hget;
      [destruct (String.eqb_spec m manifestUrl) as [->|Hne]|];
      unfold ret at 1; unfold bind at 1; rewrite IH; unfold ret;
      eexists; (split; [reflexivity|]); simpl; intros page;
      rewrite ?Hspec; split.
    + intros [<-|[Hin Hp]]; auto.
    + intros [[<-|Hin] Hp]; auto.
    + intros [Hin Hp]; auto.
    + intros [[<-|Hin] Hp]; [congruence | auto].
    + intros [Hin Hp]; auto.
    + intros [[<-|Hin] Hp]; [congruence | auto].
Qed.

(** [Promise.all] of an operation and a write to a store. *)
Lemma Promise_all_with_set (V : Type) (first : Async unit) (key : string)
  (value : V) (store : StoreRef V) (w : World) :
  Promise_all [first; set key value store] w =
  (match fst (first w) with
   | Return a => Return [a; tt]
   | Throw e => Throw e
   end,
   save store (store_set key value (load store (snd (first w))))
        (snd (first w))).
Proof.
  simpl. destruct (first w) as [[a|e] w1]; reflexivity.
Qed.

(** The update is given up before anything is stored when the parser
    or [new URL] throws. *)
Lemma performManifestUpdate_refused
  (manifestUrl manifestHash manifestText : string)
  (previousManifests : list ManifestVersion) (w : World) :
  let w0 := with_trace (trace w ++ [EvParse manifestText]) w in
  (forall message,
     parseAppCacheManifest P manifestText = inr message ->
     window_runtime.performManifestUpdate P manifestUrl manifestHash
       manifestText previousManifests w = (Throw (Error message), w0)) /\
  (forall originalManifest,
     parseAppCacheManifest P manifestText = inl originalManifest ->
     window_runtime.manifest_resolvable P manifestUrl originalManifest
       = false ->
     window_runtime.performManifestUpdate P manifestUrl manifestHash
       manifestText previousManifests w = (Throw TypeError, w0)).
Proof.
  cbv zeta. unfold window_runtime.performManifestUpdate.
  unfold bind at 1 2. unfold log at 1 2. cbv beta iota. split.
  - intros message ->. reflexivity.
  - intros originalManifest -> ->. reflexivity.
Qed.

(** The run of an update whose manifest was parsed and resolved. *)
Lemma performManifestUpdate_run
  (manifestUrl manifestHash manifestText : string)
  (previousManifests : list ManifestVersion) (w : World)
  (originalManifest : Manifest) :
  parseAppCacheManifest P manifestText = inl originalManifest ->
  window_runtime.manifest_resolvable P manifestUrl originalManifest = true ->
  exists urlsToCache,
    (forall u, In u urlsToCache <->
               to_materialize P manifestUrl originalManifest w u) /\
    let w0 := with_trace (trace w ++ [EvParse manifestText]) w in
    let added := window_runtime.addToCache P manifestHash urlsToCache w0 in
    window_runtime.performManifestUpdate P manifestUrl manifestHash
      manifestText previousManifests w =
    (match fst added with
     | Return _ => Return manifestHash
     | Throw e => Throw e
     end,
     with_manifests
       (store_set manifestUrl
          (previousManifests ++
           [{| hash := manifestHash;
               parsed := window_runtime.makeManifestUrlsAbsolute P manifestUrl
                           originalManifest |}])
          (db_manifests (snd added)))
       (snd added)).
Proof.
  intros Hparse Hres.
  set (w0 := with_trace (trace w ++ [EvParse manifestText]) w).
  set (manifest := window_runtime.makeManifestUrlsAbsolute P manifestUrl
                     originalManifest).
  destruct (master_entries_spec manifestUrl
              (store_keys (load PATH_TO_MANIFEST w0)) w0)
    as (entries & Hentries & Hmaster).
  exists ((cache manifest ++
           map (fun key => match prop_get (fallback manifest) key with
                           | Some url => url
                           | None => "undefined"
                           end)
               (Object_keys (fallback manifest))) ++
          concat entries).
  split.
  - intros u. unfold to_materialize. cbv zeta. fold manifest.
    rewrite !in_app_iff, Hmaster. simpl.
    split.
    + intros [[Hc|Hf]|[_ Hp]]; [now left | right; left | right; now right].
      apply in_map_iff in Hf. destruct Hf as (key & E & Hkey).
      destruct (prop_get_key_In _ _ _ Hkey) as [v Hv].
      rewrite Hv in E. subst v. now exists key.
    + intros [Hc|[(key & Hkey)|Hp]]; [left; now left | left; right | right].
      * apply in_map_iff. exists key. rewrite Hkey.
        split; [reflexivity|]. exact (prop_get_some_key _ _ _ _ Hkey).
      * split; [|exact Hp]. apply store_get_keys. eauto.
  - cbv zeta. unfold window_runtime.performManifestUpdate.
    unfold bind at 1. unfold log at 1. cbv beta iota.
    rewrite Hparse, Hres. change (negb true) with false. cbv iota.
    unfold bind at 1. unfold keys at 1. cbv beta iota.
    fold w0. unfold bind at 1. rewrite Hentries.
    unfold bind at 1. fold manifest. rewrite Promise_all_with_set.
    destruct (window_runtime.addToCache P manifestHash _ w0)
      as [[a|e] w1]; reflexivity.
Qed.

(** What an update that was parsed and resolved leaves behind, whether
    it then returns or rejects. *)
Lemma performManifestUpdate_effect
  (manifestUrl manifestHash manifestText : string)
  (previousManifests : list ManifestVersion) (w : World)
  (originalManifest : Manifest) :
  parseAppCacheManifest P manifestText = inl originalManifest ->
  window_runtime.manifest_resolvable P manifestUrl originalManifest = true ->
  let run := window_runtime.performManifestUpdate P manifestUrl manifestHash
               manifestText previousManifests w in
  let w' := snd run in
  (fst run = Return manifestHash \/ fst run = Throw TypeError) /\
  db_manifests w' =
    store_set manifestUrl
      (previousManifests ++
       [{| hash := manifestHash;
           parsed := window_runtime.makeManifestUrlsAbsolute P manifestUrl
                       originalManifest |}])
      (db_manifests w) /\
  db_paths w' = db_paths w /\ db_clients w' = db_clients w /\
  cleanupInProgress w' = cleanupInProgress w /\
  (forall n, n <> manifestHash ->
             prop_get (caches w') n = prop_get (caches w) n) /\
  prop_get (caches w') manifestHash <> None /\
  (caches_wellformed P (caches w) = true ->
   caches_wellformed P (caches w') = true) /\
  (forall u r, to_materialize P manifestUrl originalManifest w u ->
               request_constructible P u = true ->
               network_fetch P (window_runtime.direct_request
                                  u "manual" "default") = Some r ->
               declares_no_store r = false -> ok r = true ->
               cache_accepts P u r = true ->
               storage_match u (Some manifestHash) (caches w') = Some r) /\
  (exists evs, trace w' = trace w ++ EvParse manifestText :: evs /\
               (forall ev, In ev evs ->
                  exists u, to_materialize P manifestUrl originalManifest w u /\
                            request_constructible P u = true /\
                            (ev = EvFetch (window_runtime.direct_request
                                             u "manual" "default") \/
                             ev = EvCacheMatch u None \/
                             ev = EvCachePut manifestHash u)) /\
               forall u, to_materialize P manifestUrl originalManifest w u ->
                         request_constructible P u = true ->
                         In (EvFetch (window_runtime.direct_request
                                        u "manual" "default")) evs) /\
  ((forall u, to_materialize P manifestUrl originalManifest w u ->
              request_constructible P u = true) ->
   caches_wellformed P (caches w) = true ->
   fst run = Return manifestHash) /\
  ((exists u, to_materialize P manifestUrl originalManifest w u /\
              request_constructible P u = false) ->
   fst run = Throw TypeError).
Proof.
  intros Hparse Hres. cbv zeta.
  destruct (performManifestUpdate_run manifestUrl manifestHash manifestText
              previousManifests w originalManifest Hparse Hres)
    as (urlsToCache & Hurls & Hrun).
  cbv zeta in Hrun. rewrite Hrun. clear Hrun. cbn [fst snd].
  set (w0 := with_trace (trace w ++ [EvParse manifestText]) w).
  destruct (addToCache_run P manifestHash urlsToCache w0)
    as (_ & Hkind & Hret & Hthrow).
  destruct (addToCache_effect P manifestHash urlsToCache w0)
    as ((A & B & C & D) & Hother & Hexists & Hwf & Hround
        & evs & Htrace & Hnoparse & Hfetched).
  split; [|split; [|split; [|split; [|split; [|split; [|split; [|split;
    [|split; [|split; [|split]]]]]]]]]].
  - destruct Hkind as [->| ->]; auto.
  - simpl. now rewrite A.
  - exact B.
  - exact C.
  - exact D.
  - exact Hother.
  - exact Hexists.
  - exact Hwf.
  - intros u r Hu Hc Hnet Hns Hok Hacc.
    apply (Hround u r); auto. now apply Hurls.
  - exists evs. split; [|split].
    + simpl. rewrite Htrace. simpl. now rewrite <- app_assoc.
    + intros ev Hev. destruct (Hnoparse ev Hev) as (u & Hu & Hc & Hev').
      exists u. split; [now apply Hurls | auto].
    + intros u Hu Hc. apply Hfetched; auto. now apply Hurls.
  - intros Hall Hgood. rewrite Hret; auto.
    intros u Hu. apply Hall. now apply Hurls.
  - intros (u & Hu & Hc). rewrite Hthrow; auto.
    exists u. split; [now apply Hurls | exact Hc].
Qed.

(** An update that returned has stored the new version. *)
Lemma performManifestUpdate_returned
  (manifestUrl manifestHash manifestText : string)
  (previousManifests : list ManifestVersion) (w : World) (h : string) :
  fst (window_runtime.performManifestUpdate P manifestUrl manifestHash
         manifestText previousManifests w) = Return h ->
  exists version,
    hash version = manifestHash /\
    store_get manifestUrl
      (db_manifests
         (snd (window_runtime.performManifestUpdate P manifestUrl manifestHash
                 manifestText previousManifests w))) =
    Some (previousManifests ++ [version]).
Proof.
  intros Hret.
  destruct (performManifestUpdate_refused manifestUrl manifestHash
              manifestText previousManifests w) as [Hnone Hbad].
  destruct (parseAppCacheManifest P manifestText)
    as [originalManifest|message] eqn:Hparse.
  - destruct (window_runtime.manifest_resolvable P manifestUrl originalManifest)
      eqn:Hres.
    + destruct (performManifestUpdate_effect manifestUrl manifestHash
                  manifestText previousManifests w originalManifest Hparse Hres)
        as (_ & Hm & _).
      eexists. split; [|rewrite Hm; apply store_get_set_same]. reflexivity.
    + rewrite (Hbad originalManifest eq_refl Hres) in Hret. discriminate.
  - rewrite (Hnone message eq_refl) in Hret. discriminate.
Qed.

End Versions.

(** *** The outcome of the operations of [addToCache] *)






(** ** Checking a manifest twice *)

(** [getManifestText] reads nothing of the world and adds to it only the
    record of its calls of [fetch], of which there are at most two; it
    fails when no request can be constructed for the manifest or a
    request fails. *)
Lemma getManifestText_outcome (P : Platform) (manifestUrl : string) :
  exists completion fetches,
    (forall w, window_runtime.getManifestText P manifestUrl w =
               (completion, with_trace (trace w ++ fetches) w)) /\
    (forall e, completion = Throw e -> e = NetworkError \/ e = TypeError) /\
    (fetches = [] \/
     fetches =
       [EvFetch (window_runtime.direct_request manifestUrl "follow" "default")]
     \/
     fetches =
       [EvFetch (window_runtime.direct_request manifestUrl "follow" "default");
        EvFetch (window_runtime.direct_request manifestUrl "follow" "reload")]).
Proof.
  unfold window_runtime.getManifestText, window_runtime.fetch.
  set (first := window_runtime.direct_request manifestUrl "follow" "default").
  set (again := window_runtime.direct_request manifestUrl "follow" "reload").
  destruct (request_constructible P manifestUrl).
  2:{ exists (Throw TypeError), [].
      split; [|split; [intros e E; injection E as <-; now right | now left]].
      intros [m p c cs f t]. unfold throw, with_trace. simpl.
      now rewrite app_nil_r. }
  simpl negb. cbv iota.
  destruct (network_fetch P first) as [manifestResponse|].
  - destruct (truthy (headers_get (res_headers manifestResponse) "date"))
      as [dateHeaderValue|] eqn:D.
    + destruct (date_valueOf P dateHeaderValue) as [manifestDate|] eqn:V.
      * destruct (MAX_MANIFEST_AGE P <? date_now P - manifestDate)%Z eqn:Old.
        -- destruct (network_fetch P again) as [noCacheResponse|].
           ++ exists (Return (res_body noCacheResponse)),
                     [EvFetch first; EvFetch again].
              split; [|split; [discriminate | right; now right]]. intros w.
              unfold bind, log, ret, with_trace; simpl. rewrite D, V, Old.
              simpl. rewrite <- app_assoc. reflexivity.
           ++ exists (Throw NetworkError), [EvFetch first; EvFetch again].
              split; [|split; [intros e E; injection E as <-; now left
                              | right; now right]].
              intros w.
              unfold bind, log, throw, with_trace; simpl. rewrite D, V, Old.
              simpl. rewrite <- app_assoc. reflexivity.
        -- exists (Return (res_body manifestResponse)), [EvFetch first].
           split; [|split; [discriminate | right; now left]]. intros w.
           unfold bind, log, ret; simpl. now rewrite D, V, Old.
      * exists (Return (res_body manifestResponse)), [EvFetch first].
        split; [|split; [discriminate | right; now left]]. intros w.
        unfold bind, log, ret; simpl. now rewrite D, V.
    + exists (Return (res_body manifestResponse)), [EvFetch first].
      split; [|split; [discriminate | right; now left]]. intros w.
      unfold bind, log, ret; simpl. now rewrite D.
  - exists (Throw NetworkError), [EvFetch first].
    split; [|split; [intros e E; injection E as <-; now left
                    | right; now left]].
    intros w. reflexivity.
Qed.

Lemma getManifestText_runs (P : Platform) (manifestUrl : string) :
  exists completion fetches,
    (forall w, window_runtime.getManifestText P manifestUrl w =
               (completion, with_trace (trace w ++ fetches) w)) /\
    Forall is_fetch fetches.
Proof.
  destruct (getManifestText_outcome P manifestUrl)
    as (completion & fetches & Hrun & _ & Hfetches).
  exists completion, fetches. split; [exact Hrun|].
  destruct Hfetches as [->|[->| ->]]; repeat constructor;
    eexists; reflexivity.
Qed.

(** C4.  When [checkManifestVersion] has completed with a hash, calling
    it again, possibly later and on another page, while the text fetched
    for the manifest is still the same, completes with the same hash and
    leaves the world as it was but for the record of its calls of
    [fetch]: the stored history and the caches are unchanged, nothing is
    parsed and nothing is put in a cache. *)
Theorem checkManifestVersion_twice (P P2 : Platform) (manifestUrl : string)
  (w w1 : World) (hash1 : string) :
  window_runtime.checkManifestVersion P manifestUrl w = (Return hash1, w1) ->
  digest_hex P2 = digest_hex P ->
  fst (window_runtime.getManifestText P2 manifestUrl w1) =
  fst (window_runtime.getManifestText P manifestUrl w) ->
  exists fetches,
    window_runtime.checkManifestVersion P2 manifestUrl w1 =
    (Return hash1, with_trace (trace w1 ++ fetches) w1) /\
    Forall is_fetch fetches.
Proof.
  intros Hfirst Hdigest Hsame.
  destruct (getManifestText_runs P manifestUrl)
    as (completion & fetches1 & Htext & _).
  destruct (getManifestText_runs P2 manifestUrl)
    as (completion2 & fetches & Htext2 & Hfetches).
  rewrite Htext, Htext2 in Hsame. simpl in Hsame. subst completion2.
  exists fetches. split; [|exact Hfetches].
  unfold window_runtime.checkManifestVersion in *.
  unfold bind at 1 in Hfirst. rewrite Htext in Hfirst.
  unfold bind at 1. rewrite Htext2.
  destruct completion as [text|e]; [|discriminate].
  unfold bind at 1 in Hfirst. unfold get at 1 in Hfirst. simpl in Hfirst.
  unfold bind at 1. unfold get at 1. simpl.
  unfold window_runtime.generateHash in *. rewrite Hdigest.
  set (h := digest_hex P (manifestUrl ++ text)%string) in *.
  destruct (existsb (fun previousManifest => hash previousManifest =? h)
              match store_get manifestUrl (db_manifests w) with
              | Some ms => ms
              | None => []
              end) eqn:Known; simpl in Hfirst.
  - unfold bind, ret in Hfirst. simpl in Hfirst.
    injection Hfirst as <- <-. simpl. rewrite Known. reflexivity.
  - unfold bind at 1 in Hfirst. unfold bind at 1 in Hfirst.
    match type of Hfirst with
    | context [window_runtime.performManifestUpdate P ?u ?hh ?t ?prev ?w0] =>
        pose proof (performManifestUpdate_returned P u hh t prev w0)
          as Hreturned;
        destruct (window_runtime.performManifestUpdate P u hh t prev w0)
          as [[returned|e] w'] eqn:Hrun; [|discriminate]
    end.
    destruct (Hreturned returned eq_refl) as (version & Hhash & Hhistory).
    unfold bind, ret in Hfirst. simpl in Hfirst.
    injection Hfirst as <- <-. simpl in Hhistory.
    rewrite Hhistory. rewrite existsb_app. simpl.
    rewrite Hhash, String.eqb_refl, orb_true_r. reflexivity.
Qed.

Lemma checkManifestVersion_twice_witness :
  let P := online "v1" [] in
  let P2 := online "v1" [tab "c1"] in
  let w1 := snd (window_runtime.checkManifestVersion P app_manifest empty_world) in
  exists fetches,
    window_runtime.checkManifestVersion P2 app_manifest w1 =
    (Return H1, with_trace (trace w1 ++ fetches) w1) /\
    Forall is_fetch fetches.
Proof.
  apply (checkManifestVersion_twice (online "v1" []) (online "v1" [tab "c1"])
           app_manifest empty_world
           (snd (window_runtime.checkManifestVersion (online "v1" [])
                   app_manifest empty_world))
           H1); reflexivity.
Defined.

(* ================================================================== *)
(** * Further properties of the service-worker runtime *)
(* ================================================================== *)

(** ** [longestMatchingPrefix] *)

Lemma prefixes_of_equal_length (a b s : string) :
  String.prefix a s = true -> String.prefix b s = true ->
  String.length a = String.length b -> a = b.
Proof.
  revert a b. induction s as [|c s IH]; intros a b Ha Hb Hlen.
  - destruct a; [|discriminate]. destruct b; [reflexivity | discriminate].
  - destruct a as [|x a]; destruct b as [|y b]; simpl in Hlen;
      try discriminate; [reflexivity|].
    simpl in Ha, Hb.
    destruct (ascii_dec x c) as [->|]; [|discriminate].
    destruct (ascii_dec y c) as [->|]; [|discriminate].
    f_equal. apply IH; auto.
Qed.

(** X1.  [longestMatchingPrefix] returns [''] exactly when no non-empty
    prefix of the list matches the URL; otherwise it returns an element
    of the list that the URL starts with, and no element the URL starts
    with is longer. *)
Theorem longestMatchingPrefix_is_longest_match (urlPrefixes : list string)
  (fullUrl : string) :
  let longest := sw_runtime.longestMatchingPrefix urlPrefixes fullUrl in
  (longest = "" <->
   forall p, In p urlPrefixes -> startsWith fullUrl p = true -> p = "") /\
  (longest <> "" ->
   In longest urlPrefixes /\ startsWith fullUrl longest = true) /\
  (forall p, In p urlPrefixes -> startsWith fullUrl p = true ->
             String.length p <= String.length longest).
Proof.
  intros longest.
  destruct (longestMatchingPrefix_spec urlPrefixes fullUrl) as [Hres Hmax].
  fold longest in Hres, Hmax. repeat split.
  - intros E p Hin Hs. specialize (Hmax p Hin Hs). rewrite E in Hmax.
    destruct p; [reflexivity | simpl in Hmax; lia].
  - intros Hnone. destruct Hres as [E|[Hin Hs]]; [exact E | auto].
  - destruct Hres as [E|[Hin Hs]]; [contradiction | exact Hin].
  - destruct Hres as [E|[Hin Hs]]; [contradiction | exact Hs].
  - exact Hmax.
Qed.

(** X2.  The result of [longestMatchingPrefix] depends only on which
    prefixes are in the list, not on their order or multiplicity: two
    prefixes of one URL that have the same length are the same string,
    so there is no tie to break. *)
Theorem longestMatchingPrefix_order_independent (keys1 keys2 : list string)
  (fullUrl : string) :
  (forall p, In p keys1 <-> In p keys2) ->
  sw_runtime.longestMatchingPrefix keys1 fullUrl =
  sw_runtime.longestMatchingPrefix keys2 fullUrl.
Proof.
  intros Hsame.
  destruct (longestMatchingPrefix_spec keys1 fullUrl) as [H1 M1].
  destruct (longestMatchingPrefix_spec keys2 fullUrl) as [H2 M2].
  set (r1 := sw_runtime.longestMatchingPrefix keys1 fullUrl) in *.
  set (r2 := sw_runtime.longestMatchingPrefix keys2 fullUrl) in *.
  assert (L12 : String.length r1 <= String.length r2).
  { destruct H1 as [->|[Hin Hs]]; [simpl; lia|].
    apply M2; [now apply Hsame | exact Hs]. }
  assert (L21 : String.length r2 <= String.length r1).
  { destruct H2 as [->|[Hin Hs]]; [simpl; lia|].
    apply M1; [now apply Hsame | exact Hs]. }
  assert (Hlen : String.length r1 = String.length r2) by lia.
  destruct H1 as [E1|[_ Hs1]].
  - rewrite E1 in *. destruct r2; [reflexivity | simpl in Hlen; discriminate].
  - destruct H2 as [E2|[_ Hs2]].
    + rewrite E2 in *. destruct r1; [reflexivity | simpl in Hlen; discriminate].
    + exact (prefixes_of_equal_length r1 r2 fullUrl Hs1 Hs2 Hlen).
Qed.

Lemma longestMatchingPrefix_order_independent_witness :
  sw_runtime.longestMatchingPrefix ["/a/"; "/a/b/"; "/a/"] "/a/b/c" =
  sw_runtime.longestMatchingPrefix ["/a/b/"; "/a/"] "/a/b/c".
Proof.
  apply (longestMatchingPrefix_order_independent
           ["/a/"; "/a/b/"; "/a/"] ["/a/b/"; "/a/"] "/a/b/c").
  intros p. simpl. tauto.
Defined.

(** ** The resolver *)

(** X3.  The fallback section is looked at before the network section:
    a request that is not in the cache section, is not the client URL and
    starts with a non-empty fallback key is handed to [fetchWithFallback]
    with the value of a fallback key, also when its URL or the wildcard
    is in the network section. *)
Theorem fallback_precedes_network (P : Platform) (event : FetchEvent)
  (manifest : Manifest) (hash clientUrl key : string) (w : World) :
  ~ In (req_url (request event)) (cache manifest) ->
  req_url (request event) <> clientUrl ->
  In key (Object_keys (fallback manifest)) ->
  startsWith (req_url (request event)) key = true ->
  key <> "" ->
  In (req_url (request event)) (network manifest) \/
  In "*" (network manifest) ->
  exists fallbackUrl,
    In fallbackUrl (map snd (fallback manifest)) /\
    sw_runtime.appCacheLogic P event (Some manifest) hash clientUrl w =
    sw_runtime.fetchWithFallback P (request event) fallbackUrl hash w.
Proof.
  intros Hc Hu Hin Hs Hne _.
  destruct (appCacheLogic_fallback_branch P event manifest hash clientUrl key w
              Hc Hu Hin Hs Hne)
    as (longest & fallbackUrl & _ & _ & _ & Hget & Hrun).
  exists fallbackUrl. split; [|exact Hrun].
  clear - Hget. induction (fallback manifest) as [|[k v] rest IH];
    simpl in *; [discriminate|].
  destruct (String.eqb longest k).
  - injection Hget as ->. now left.
  - right. auto.
Qed.

Lemma fallback_precedes_network_witness :
  exists fallbackUrl,
    In fallbackUrl (map snd (fallback manifest_v2)) /\
    sw_runtime.appCacheLogic (online "v2" [tab "c1"])
      (event_for "https://x/api/widgets" "c1") (Some manifest_v2) H2
      "https://x/index.html" (two_versions []) =
    sw_runtime.fetchWithFallback (online "v2" [tab "c1"])
      (request (event_for "https://x/api/widgets" "c1"))
      fallbackUrl H2 (two_versions []).
Proof.
  apply (fallback_precedes_network (online "v2" [tab "c1"])
           (event_for "https://x/api/widgets" "c1") manifest_v2 H2
           "https://x/index.html" "https://x/api/" (two_versions [])).
  - simpl. intros [E|[E|[]]]; discriminate.
  - discriminate.
  - simpl. now left.
  - reflexivity.
  - discriminate.
  - right. simpl. now left.
Defined.

(** X4.  [manifestBehavior] rejects with a [TypeError] when the version
    it is to use is not stored: when the hash recorded for the session
    is the hash of no version in the history of the manifest, and when
    there is no recorded hash and the manifest has no history or an
    empty one.  Nothing is looked up in the caches. *)
Theorem manifestBehavior_missing_version (P : Platform) (event : FetchEvent)
  (manifestUrl clientUrl : string) (w : World) :
  let history :=
    match store_get manifestUrl (db_manifests w) with
    | Some history => history
    | None => []
    end in
  let recorded :=
    truthy (stored_hash (store_get (clientId event) (db_clients w))) in
  (nonempty (clientId event) = true ->
   forall pinned, recorded = Some pinned ->
   ~ In pinned (map hash history) ->
   sw_runtime.manifestBehavior P event manifestUrl clientUrl w =
   (Throw TypeError, w)) /\
  (nonempty (clientId event) = false \/ recorded = None ->
   history = [] ->
   fst (sw_runtime.manifestBehavior P event manifestUrl clientUrl w) =
     Throw TypeError /\
   trace (snd (sw_runtime.manifestBehavior P event manifestUrl clientUrl w)) =
     trace w).
Proof.
  intros history recorded. subst history recorded. split.
  - intros Hid pinned Hpin Hnot.
    unfold sw_runtime.manifestBehavior. rewrite Hid.
    unfold bind at 1. unfold get at 1. simpl. rewrite Hpin.
    unfold sw_runtime.getParsedManifestVersion, bind, get, ret; simpl.
    assert (Hfind : find (fun manifest => hash manifest =? pinned)
                      match store_get manifestUrl (db_manifests w) with
                      | Some ms => ms
                      | None => []
                      end = None).
    { destruct (find _ _) as [v|] eqn:F; [|reflexivity].
      apply find_some in F. destruct F as [Hin Heq].
      apply String.eqb_eq in Heq. exfalso. apply Hnot. rewrite <- Heq.
      now apply in_map. }
    rewrite Hfind. reflexivity.
  - intros Hno Hempty.
    assert (Hlatest : forall w0, db_manifests w0 = db_manifests w ->
              sw_runtime.getLatestManifestVersion manifestUrl w0 =
              (Return None, w0)).
    { intros w0 E. unfold sw_runtime.getLatestManifestVersion, bind, get, ret.
      simpl. rewrite E.
      destruct (store_get manifestUrl (db_manifests w)) as [history|];
        [|reflexivity].
      simpl in Hempty. now rewrite Hempty. }
    assert (Hrun : exists w1,
              sw_runtime.manifestBehavior P event manifestUrl clientUrl w =
              (Throw TypeError, w1) /\ trace w1 = trace w).
    { unfold sw_runtime.manifestBehavior.
      destruct (nonempty (clientId event)) eqn:Hid.
      - destruct Hno as [Hno|Hno]; [discriminate|].
        unfold bind at 1. unfold get at 1. simpl. rewrite Hno.
        unfold sw_runtime.saveClientIdAndHash. rewrite Hid.
        unfold bind at 1. unfold set at 1. simpl.
        unfold bind at 1. rewrite Hlatest by reflexivity.
        eexists. split; reflexivity.
      - unfold bind at 1. rewrite Hlatest by reflexivity.
        eexists. split; reflexivity. }
    destruct Hrun as (w1 & -> & Htrace). simpl. auto.
Qed.

Lemma manifestBehavior_missing_version_witness :
  sw_runtime.manifestBehavior (online "v2" [tab "c1"])
    (event_for "https://x/a.js" "c1") app_manifest "https://x/index.html"
    (two_versions [("c1", Some "gone")]) =
  (Throw TypeError, two_versions [("c1", Some "gone")]) /\
  fst (sw_runtime.manifestBehavior (online "v2" [tab "c1"])
         (event_for "https://x/a.js" "") "https://x/other.manifest"
         "https://x/index.html" (two_versions [])) = Throw TypeError.
Proof.
  split.
  - apply (proj1 (manifestBehavior_missing_version (online "v2" [tab "c1"])
                    (event_for "https://x/a.js" "c1") app_manifest
                    "https://x/index.html"
                    (two_versions [("c1", Some "gone")]))
             eq_refl "gone" eq_refl).
    simpl. intros [E|[E|[]]]; discriminate.
  - apply (proj2 (manifestBehavior_missing_version (online "v2" [tab "c1"])
                    (event_for "https://x/a.js" "") "https://x/other.manifest"
                    "https://x/index.html" (two_versions []))).
    + left. reflexivity.
    + reflexivity.
Defined.

Lemma same_but_trace_refl (w : World) : same_but_trace w w.
Proof. repeat split. Qed.

Lemma appCacheLogic_frame (P : Platform) (event : FetchEvent)
  (manifest : option Manifest) (hash clientUrl : string) (w : World) :
  same_but_trace w
    (snd (sw_runtime.appCacheLogic P event manifest hash clientUrl w)).
Proof.
  unfold sw_runtime.appCacheLogic.
  destruct manifest as [manifest|]; [|apply same_but_trace_refl].
  destruct (includes (cache manifest) (req_url (request event))
            || (req_url (request event) =? clientUrl));
    [repeat split|].
  destruct (nonempty _).
  - rewrite fetchWithFallback_runs. repeat split.
  - destruct (includes (network manifest) (req_url (request event))
              || includes (network manifest) "*"); repeat split.
Qed.

Lemma latest_version_frame (P : Platform) (event : FetchEvent)
  (manifestUrl clientUrl : string) (w : World) :
  same_but_trace w
    (snd (bind (sw_runtime.getLatestManifestVersion manifestUrl)
            (fun latestManifest =>
               match latestManifest with
               | None => throw TypeError
               | Some latestManifest =>
                   sw_runtime.appCacheLogic P event
                     (Some (parsed latestManifest)) (hash latestManifest)
                     clientUrl
               end) w)).
Proof.
  unfold bind at 1.
  assert (E : exists v, sw_runtime.getLatestManifestVersion manifestUrl w =
                        (Return v, w)).
  { unfold sw_runtime.getLatestManifestVersion, bind, get, ret. simpl.
    destruct (store_get manifestUrl (db_manifests w)); eauto. }
  destruct E as [v ->]. destruct v as [latest|].
  - apply appCacheLogic_frame.
  - apply same_but_trace_refl.
Qed.

Lemma manifestBehavior_frame (P : Platform) (event : FetchEvent)
  (manifestUrl clientUrl : string) (w : World) :
  let w' := snd (sw_runtime.manifestBehavior P event manifestUrl clientUrl w) in
  db_manifests w' = db_manifests w /\ db_paths w' = db_paths w /\
  caches w' = caches w /\ cleanupInProgress w' = cleanupInProgress w /\
  forall id, stored_hash (store_get id (db_clients w')) =
             stored_hash (store_get id (db_clients w)).
Proof.
  intros w'. subst w'.
  remember (snd (sw_runtime.manifestBehavior P event manifestUrl clientUrl w))
    as w' eqn:Hw'.
  unfold sw_runtime.manifestBehavior in Hw'.
  destruct (nonempty (clientId event)) eqn:Hid.
  - unfold bind at 1 in Hw'. unfold get at 1 in Hw'. simpl in Hw'.
    destruct (truthy (stored_hash (store_get (clientId event) (db_clients w))))
      as [pinned|].
    + destruct (appCacheLogic_frame P event
                  (option_map parsed
                     (find (fun manifest => hash manifest =? pinned)
                        match store_get manifestUrl (db_manifests w) with
                        | Some ms => ms
                        | None => []
                        end)) pinned clientUrl w)
        as (A & B & C & D & E).
      subst w'.
      split; [exact A|split; [exact B|split; [exact D|split; [exact E|]]]].
      intros id.
      apply (f_equal (fun s => stored_hash (store_get id s))). exact C.
    + destruct (latest_version_frame P event manifestUrl clientUrl
                  (with_clients
                     (store_set (clientId event)
                        (stored_hash (store_get (clientId event) (db_clients w)))
                        (db_clients w)) w))
        as (A & B & C & D & E).
      unfold sw_runtime.saveClientIdAndHash in Hw'. rewrite Hid in Hw'.
      subst w'.
      split; [exact A|split; [exact B|split; [exact D|split; [exact E|]]]].
      intros id.
      transitivity
        (stored_hash
           (store_get id
              (store_set (clientId event)
                 (stored_hash (store_get (clientId event) (db_clients w)))
                 (db_clients w)))).
      * apply (f_equal (fun s => stored_hash (store_get id s))). exact C.
      * destruct (String.eqb_spec id (clientId event)) as [->|Hne].
        -- now rewrite store_get_set_same.
        -- now rewrite store_get_set_other.
  - destruct (latest_version_frame P event manifestUrl clientUrl w)
      as (A & B & C & D & E).
    subst w'.
    split; [exact A|split; [exact B|split; [exact D|split; [exact E|]]]].
    intros id.
    apply (f_equal (fun s => stored_hash (store_get id s))). exact C.
Qed.

Lemma appCacheBehaviorForEvent_frame (P : Platform) (event : FetchEvent)
  (w : World) :
  let w' := snd (sw_runtime.appCacheBehaviorForEvent P event w) in
  db_manifests w' = db_manifests w /\ db_paths w' = db_paths w /\
  caches w' = caches w /\ cleanupInProgress w' = cleanupInProgress w /\
  forall id, stored_hash (store_get id (db_clients w')) =
             stored_hash (store_get id (db_clients w)).
Proof.
  intros w'. subst w'.
  remember (snd (sw_runtime.appCacheBehaviorForEvent P event w)) as w' eqn:Hw'.
  unfold sw_runtime.appCacheBehaviorForEvent in Hw'.
  destruct (strictly_equal _ _); [subst w'; repeat split|].
  destruct (negb (req_method (request event) =? "GET")
            || negb (url_protocol P (req_url (request event))
                     =? location_protocol P)); [subst w'; repeat split|].
  destruct (getClientUrlForEvent_pure P event) as [clientUrl Hclient].
  unfold bind at 1 in Hw'. rewrite Hclient in Hw'.
  unfold bind at 1 in Hw'. unfold get at 1 in Hw'. simpl in Hw'.
  destruct (truthy (store_get clientUrl (db_paths w))) as [manifestUrl|].
  - subst w'. apply manifestBehavior_frame.
  - rewrite noManifestBehavior_runs in Hw'. subst w'. repeat split.
Qed.

(** X5.  Resolving a request changes no cache, no version history and no
    association of a page with a manifest, and leaves the clean-up flag
    alone; in [CLIENT_ID_TO_HASH] every client id reads the same hash (or
    [undefined]) after the request as before.  This holds for every
    event and every content of the stores, whether resolution completes
    or rejects. *)
Theorem resolution_changes_no_store (P : Platform) (event : FetchEvent)
  (w : World) :
  let w' := snd (sw_runtime.appCacheBehaviorForEvent P event w) in
  db_manifests w' = db_manifests w /\ db_paths w' = db_paths w /\
  caches w' = caches w /\ cleanupInProgress w' = cleanupInProgress w /\
  forall id, stored_hash (store_get id (db_clients w')) =
             stored_hash (store_get id (db_clients w)).
Proof. exact (appCacheBehaviorForEvent_frame P event w). Qed.

(** ** The clean-up, continued *)

Section Sweep.

Variable P : Platform.

Let active : list string := map client_id (clients_matchAll P).

Let stale (w : World) : list string :=
  filter (fun id => negb (includes active id)) (store_keys (db_clients w)).

Lemma filter_none (A : Type) (f : A -> bool) (l : list A) :
  (forall x, In x l -> f x = false) -> filter f l = [].
Proof.
  induction l as [|x rest IH]; intros H; simpl; [reflexivity|].
  rewrite (H x) by now left. apply IH. intros y Hy. apply H. now right.
Qed.

Lemma store_get_after_dels (V : Type) (ids : list string) (s : Store V)
  (id : string) :
  store_get id (fold_left (fun s id => store_del id s) ids s) =
  if includes ids id then None else store_get id s.
Proof.
  revert s. induction ids as [|x rest IH]; intros s; simpl; [reflexivity|].
  rewrite IH, store_get_del. unfold includes. simpl.
  destruct (String.eqb id x); simpl.
  - now destruct (existsb (String.eqb id) rest).
  - reflexivity.
Qed.

(** The world a sweep that is not skipped ends in. *)
Lemma cleanupOldCaches_world (w : World) :
  cleanupInProgress w = false ->
  exists w',
    sw_runtime.cleanupOldCaches P w = (Return tt, w') /\
    cleanupInProgress w' = false /\
    db_manifests w' = db_manifests w /\
    db_paths w' = db_paths w /\
    db_clients w' =
      fold_left (fun s id => store_del id s) (stale w) (db_clients w) /\
    (stale w = [] -> caches w' = caches w /\ trace w' = trace w).
Proof.
  intros Hflag. unfold sw_runtime.cleanupOldCaches. rewrite Hflag.
  unfold sw_runtime.cleanupClientIdAndHash.
  unfold bind at 1. unfold bind at 1. unfold keys at 1. simpl.
  fold active. fold (stale w).
  destruct (forget_clients_runs (stale w) (with_cleanupInProgress true w))
    as (notInUse & Hrun & Hspec).
  simpl in Hrun, Hspec. rewrite Hrun. clear Hrun.
  unfold bind at 1. rewrite getHashesOfOlderVersions_runs. simpl.
  unfold bind at 1.
  match goal with
  | |- context [mapM caches_delete ?ids ?w0] =>
      destruct (delete_caches_runs ids w0) as (results & ->);
      remember ids as idsToDelete eqn:Hids
  end.
  simpl. eexists. split; [reflexivity|]. simpl.
  repeat (split; [reflexivity|]).
  intros Hstale.
  assert (Hnone : idsToDelete = []).
  { rewrite Hids. apply filter_none. intros h _.
    destruct (includes_opt notInUse h) eqn:E; [|reflexivity].
    apply includes_opt_In, Hspec in E. rewrite Hstale in E.
    destruct E as (id & [] & _). }
  rewrite Hnone. simpl. now rewrite app_nil_r.
Qed.

(** X6.  A sweep that is not skipped removes from [CLIENT_ID_TO_HASH]
    exactly the entries of the clients that are not active: afterwards
    an active client reads what it read before, and any other client
    reads nothing. *)
Theorem sweep_forgets_inactive_clients (w : World) (id : string) :
  cleanupInProgress w = false ->
  store_get id (db_clients (snd (sw_runtime.cleanupOldCaches P w))) =
  if includes (map client_id (clients_matchAll P)) id
  then store_get id (db_clients w)
  else None.
Proof.
  intros Hflag.
  destruct (cleanupOldCaches_world w Hflag) as (w' & -> & _ & _ & _ & Hc & _).
  simpl. rewrite Hc, store_get_after_dels. fold active.
  destruct (includes (stale w) id) eqn:Hs.
  - apply includes_In in Hs. unfold stale in Hs. apply filter_In in Hs.
    destruct Hs as [_ Hs]. apply negb_true_iff in Hs. now rewrite Hs.
  - destruct (includes active id) eqn:Ha; [reflexivity|].
    destruct (store_get id (db_clients w)) as [v|] eqn:Hget; [|reflexivity].
    exfalso. apply includes_false in Hs. apply Hs. unfold stale.
    apply filter_In. split.
    + apply store_get_keys. eauto.
    + now rewrite Ha.
Qed.

(** X7.  Every sweep completes normally, leaves the version histories
    and the page associations as they were (the versions whose caches it
    deletes stay in the history), and leaves the in-progress flag as it
    found it. *)
Theorem sweep_completes_and_keeps_histories (w : World) :
  exists w',
    sw_runtime.cleanupOldCaches P w = (Return tt, w') /\
    db_manifests w' = db_manifests w /\
    db_paths w' = db_paths w /\
    cleanupInProgress w' = cleanupInProgress w.
Proof.
  destruct (cleanupInProgress w) eqn:Hflag.
  - exists w. unfold sw_runtime.cleanupOldCaches. rewrite Hflag. auto.
  - destruct (cleanupOldCaches_world w Hflag)
      as (w' & Hrun & Hf & Hm & Hp & _).
    exists w'. auto.
Qed.

(** X8.  A sweep never deletes the cache of a hash that is not an older
    version of any manifest: in particular the cache of the latest
    version of a manifest stays, whatever the sessions recorded, as long
    as its hash is not also the hash of an older version. *)
Theorem sweep_keeps_caches_of_current_versions (w : World) (n : string) :
  (forall manifestUrl history,
      store_get manifestUrl (db_manifests w) = Some history ->
      ~ In n (map hash (removelast history))) ->
  In n (cache_names (caches w)) ->
  In n (cache_names (caches (snd (sw_runtime.cleanupOldCaches P w)))).
Proof.
  intros Hcurrent Hn. destruct (cleanupInProgress w) eqn:Hflag.
  - unfold sw_runtime.cleanupOldCaches. now rewrite Hflag.
  - destruct (cleanupOldCaches_spec P w Hflag) as (w' & -> & _ & _ & Hnames).
    simpl. apply Hnames. split; [assumption|].
    intros [(manifestUrl & history & Hget & Hold) _].
    exact (Hcurrent manifestUrl history Hget Hold).
Qed.

(** X9.  Sweeping twice in a row does no more than sweeping once, as
    long as the active clients are the same: the second sweep deletes no
    cache and no entry of [CLIENT_ID_TO_HASH], and adds nothing to the
    trace. *)
Theorem second_sweep_does_nothing (w : World) :
  cleanupInProgress w = false ->
  let once := snd (sw_runtime.cleanupOldCaches P w) in
  let twice := snd (sw_runtime.cleanupOldCaches P once) in
  caches twice = caches once /\
  db_clients twice = db_clients once /\
  db_manifests twice = db_manifests once /\
  trace twice = trace once.
Proof.
  intros Hflag once twice. subst once twice.
  destruct (cleanupOldCaches_world w Hflag)
    as (w1 & -> & Hf1 & _ & _ & Hc1 & _).
  simpl.
  destruct (cleanupOldCaches_world w1 Hf1)
    as (w2 & -> & _ & Hm2 & _ & Hc2 & Hrest).
  simpl.
  assert (Hstale : stale w1 = []).
  { unfold stale. apply filter_none. intros id Hin.
    apply store_get_keys in Hin. destruct Hin as [v Hget].
    rewrite Hc1, store_get_after_dels in Hget.
    destruct (includes (stale w) id) eqn:Hs; [discriminate|].
    destruct (includes active id) eqn:Ha; [reflexivity|].
    exfalso. apply includes_false in Hs. apply Hs. unfold stale.
    apply filter_In. split.
    - apply store_get_keys. eauto.
    - now rewrite Ha. }
  destruct (Hrest Hstale) as [Hcaches Htrace].
  rewrite Hstale in Hc2. simpl in Hc2. auto.
Qed.

End Sweep.

Lemma sweep_forgets_inactive_clients_witness :
  store_get "c2"
    (db_clients
       (snd (sw_runtime.cleanupOldCaches (online "v2" [tab "c1"])
               (two_versions [("c1", Some H1); ("c2", Some H2)])))) = None /\
  store_get "c1"
    (db_clients
       (snd (sw_runtime.cleanupOldCaches (online "v2" [tab "c1"])
               (two_versions [("c1", Some H1); ("c2", Some H2)])))) =
  Some (Some H1).
Proof.
  split.
  - apply (sweep_forgets_inactive_clients (online "v2" [tab "c1"])
             (two_versions [("c1", Some H1); ("c2", Some H2)]) "c2").
    reflexivity.
  - apply (sweep_forgets_inactive_clients (online "v2" [tab "c1"])
             (two_versions [("c1", Some H1); ("c2", Some H2)]) "c1").
    reflexivity.
Defined.

Lemma sweep_keeps_caches_of_current_versions_witness :
  In H2 (cache_names
           (caches
              (snd (sw_runtime.cleanupOldCaches (online "v2" [])
                      (two_versions [("c1", Some H2); ("c2", Some H1)]))))).
Proof.
  apply (sweep_keeps_caches_of_current_versions (online "v2" [])
           (two_versions [("c1", Some H2); ("c2", Some H1)]) H2).
  - intros manifestUrl history Hget. simpl in Hget.
    destruct (manifestUrl =? app_manifest)%string; [|discriminate].
    injection Hget as <-. simpl. intros [E|[]]. discriminate.
  - simpl. right. now left.
Defined.

Lemma second_sweep_does_nothing_witness :
  let once :=
    snd (sw_runtime.cleanupOldCaches (online "v2" [tab "c1"])
           (two_versions [("c1", Some H1); ("c2", Some H1)])) in
  let twice := snd (sw_runtime.cleanupOldCaches (online "v2" [tab "c1"]) once) in
  caches twice = caches once /\
  db_clients twice = db_clients once /\
  db_manifests twice = db_manifests once /\
  trace twice = trace once.
Proof.
  apply (second_sweep_does_nothing (online "v2" [tab "c1"])
           (two_versions [("c1", Some H1); ("c2", Some H1)])).
  reflexivity.
Defined.

(* ================================================================== *)

(* ================================================================== *)
(** * Further properties of the window runtime *)
(* ================================================================== *)

(** ** [addToCache] *)



(** X11.  [addToCache(hash, urls)] writes to the cache named [hash] and
    to nothing else: the three stores are as before, and every other
    cache answers every lookup as before. *)
Theorem addToCache_touches_one_cache (P : Platform) (hash : string)
  (urls : list string) (w : World) :
  let w' := snd (window_runtime.addToCache P hash urls w) in
  same_stores w w' /\
  forall name url, name <> hash ->
    storage_match url (Some name) (caches w') =
    storage_match url (Some name) (caches w).
Proof.
  destruct (addToCache_effect P hash urls w) as (Hs & Hother & _).
  cbv zeta. split; [exact Hs|].
  intros name url Hne. unfold storage_match. now rewrite (Hother name Hne).
Qed.

(** ** [performManifestUpdate] *)






(** ** [checkManifestVersion] *)

Section Checking.

Variable P : Platform.

(** The two ways [performManifestUpdate] can end: given up before
    anything was stored, or with the new version stored. *)
Lemma performManifestUpdate_cases
  (manifestUrl manifestHash manifestText : string)
  (previousManifests : list ManifestVersion) (w : World) :
  let up := window_runtime.performManifestUpdate P manifestUrl manifestHash
              manifestText previousManifests w in
  ((fst up = Throw TypeError \/
    exists message, parseAppCacheManifest P manifestText = inr message /\
                    fst up = Throw (Error message)) /\
   snd up = with_trace (trace w ++ [EvParse manifestText]) w)
  \/
  ((fst up = Return manifestHash \/ fst up = Throw TypeError) /\
   exists version,
     hash version = manifestHash /\
     db_manifests (snd up) =
       store_set manifestUrl (previousManifests ++ [version])
                 (db_manifests w) /\
     db_paths (snd up) = db_paths w /\
     db_clients (snd up) = db_clients w /\
     cleanupInProgress (snd up) = cleanupInProgress w /\
     prop_get (caches (snd up)) manifestHash <> None).
Proof.
  cbv zeta.
  destruct (performManifestUpdate_refused P manifestUrl manifestHash
              manifestText previousManifests w) as [Hnone Hbad].
  destruct (parseAppCacheManifest P manifestText)
    as [originalManifest|message] eqn:Hparse.
  - destruct (window_runtime.manifest_resolvable P manifestUrl originalManifest)
      eqn:Hres.
    + destruct (performManifestUpdate_effect P manifestUrl manifestHash
                  manifestText previousManifests w originalManifest Hparse Hres)
        as (Hkind & Hm & Hp & Hc & Hflag & _ & Hexists & _).
      right. split; [exact Hkind|].
      eexists. split; [|split; [exact Hm|auto]]. reflexivity.
    + left. rewrite (Hbad originalManifest eq_refl Hres). auto.
  - left. rewrite (Hnone message eq_refl). split; [|reflexivity].
    right. exists message. auto.
Qed.

(** The three ways [checkManifestVersion] can end. *)
Lemma checkManifestVersion_cases (manifestUrl : string) (w : World) :
  let history := history_of w manifestUrl in
  let run := window_runtime.checkManifestVersion P manifestUrl w in
  exists fetches,
    Forall is_fetch fetches /\
    let w0 := with_trace (trace w ++ fetches) w in
    (exists e, (e = NetworkError \/ e = TypeError) /\ run = (Throw e, w0))
    \/
    (exists text,
        let h := window_runtime.generateHash P manifestUrl text in
        In h (map hash history) /\ run = (Return h, w0))
    \/
    (exists text,
        let h := window_runtime.generateHash P manifestUrl text in
        let up := window_runtime.performManifestUpdate P manifestUrl h text
                    history w0 in
        ~ In h (map hash history) /\
        run = (match fst up with
               | Return _ => Return h
               | Throw e => Throw e
               end, snd up)).
Proof.
  intros history run.
  destruct (getManifestText_outcome P manifestUrl)
    as (completion & fetches & Htext & Herr & Hfetches).
  exists fetches. split.
  { destruct Hfetches as [->|[->| ->]]; repeat constructor;
      eexists; reflexivity. }
  cbv zeta. subst run.
  remember (window_runtime.checkManifestVersion P manifestUrl w) as run
    eqn:Hrun.
  unfold window_runtime.checkManifestVersion in Hrun.
  unfold bind at 1 in Hrun. rewrite Htext in Hrun.
  destruct completion as [text|e].
  - unfold bind at 1 in Hrun. unfold get at 1 in Hrun. simpl in Hrun.
    change (match store_get manifestUrl (db_manifests w) with
            | Some ms => ms
            | None => []
            end) with history in Hrun.
    set (h := window_runtime.generateHash P manifestUrl text) in *.
    destruct (existsb (fun previousManifest => hash previousManifest =? h)
                history) eqn:Known.
    + right. left. exists text. split; [|exact Hrun].
      apply existsb_exists in Known. destruct Known as (v & Hin & E).
      apply String.eqb_eq in E. fold h. rewrite <- E. now apply in_map.
    + right. right. exists text. split.
      * fold h. intros Hin. apply in_map_iff in Hin.
        destruct Hin as (v & E & Hin).
        assert (Hex : existsb (fun previousManifest =>
                                 hash previousManifest =? h) history = true).
        { apply existsb_exists. exists v. split; [exact Hin|].
          now apply String.eqb_eq. }
        congruence.
      * simpl in Hrun. unfold bind at 1 in Hrun. unfold bind at 1 in Hrun.
        fold h. rewrite Hrun.
        destruct (window_runtime.performManifestUpdate P manifestUrl h text
                    history (with_trace (trace w ++ fetches) w))
          as [[returned|e] w']; reflexivity.
  - left. exists e. split; [now apply Herr | exact Hrun].
Qed.

End Checking.



Lemma NoDup_snoc (A : Type) (l : list A) (x : A) :
  NoDup l -> ~ In x l -> NoDup (l ++ [x]).
Proof.
  induction l as [|y rest IH]; intros Hnd Hx; simpl.
  - constructor; [intros [] | constructor].
  - inversion Hnd as [|? ? Hy Hrest]; subst. constructor.
    + intros Hin. apply in_app_or in Hin. destruct Hin as [Hin|[E|[]]].
      * contradiction.
      * subst. apply Hx. now left.
    + apply IH; [assumption|]. intros Hin. apply Hx. now right.
Qed.

Lemma find_by_hash (history : list ManifestVersion) (h : string) :
  In h (map hash history) ->
  exists version,
    find (fun manifest => hash manifest =? h) history = Some version /\
    hash version = h.
Proof.
  intros Hin. destruct (find (fun manifest => hash manifest =? h) history)
    as [version|] eqn:F.
  - exists version. split; [reflexivity|].
    apply find_some in F. destruct F as [_ E]. now apply String.eqb_eq.
  - exfalso. apply in_map_iff in Hin. destruct Hin as (v & E & Hv).
    pose proof (find_none _ _ F v Hv) as Hn. simpl in Hn.
    rewrite E, String.eqb_refl in Hn. discriminate.
Qed.

(** X15.  The history of a manifest is an append-only log without
    repeated hashes: whatever way [checkManifestVersion] ends, the
    history stored afterwards is the one stored before, or that one with
    a single version appended whose hash was in no earlier version; in
    the second case the call has returned that hash or was rejected with
    a [TypeError].  If no two versions shared a hash before, none do
    afterwards; and the histories of the other manifests are as
    before. *)
Theorem checkManifestVersion_appends_at_most_one (P : Platform)
  (manifestUrl : string) (w : World) :
  let run := window_runtime.checkManifestVersion P manifestUrl w in
  let old := history_of w manifestUrl in
  let new := history_of (snd run) manifestUrl in
  (new = old \/
   exists version,
     new = old ++ [version] /\
     ~ In (hash version) (map hash old) /\
     (fst run = Return (hash version) \/ fst run = Throw TypeError)) /\
  (NoDup (map hash old) -> NoDup (map hash new)) /\
  (forall other, other <> manifestUrl ->
     store_get other (db_manifests (snd run)) =
     store_get other (db_manifests w)).
Proof.
  cbv zeta.
  destruct (checkManifestVersion_cases P manifestUrl w)
    as (fetches & _ & Hcases).
  cbv zeta in Hcases.
  destruct Hcases as [(e0 & _ & ->) | [(text & _ & ->) | (text & Hnew & ->)]].
  - simpl. auto.
  - simpl. auto.
  - set (h := window_runtime.generateHash P manifestUrl text) in *.
    destruct (performManifestUpdate_cases P manifestUrl h text
                (history_of w manifestUrl)
                (with_trace (trace w ++ fetches) w))
      as [[_ Hworld] | [Hkind (version & Hhash & Hm & _)]].
    + cbv zeta in Hworld. cbn [fst snd]. rewrite Hworld. simpl. auto.
    + cbv zeta in Hkind, Hm. cbn [fst snd].
      assert (Hhistory :
                history_of
                  (snd (window_runtime.performManifestUpdate P manifestUrl h
                          text (history_of w manifestUrl)
                          (with_trace (trace w ++ fetches) w))) manifestUrl =
                history_of w manifestUrl ++ [version]).
      { unfold history_of at 1. rewrite Hm. simpl.
        now rewrite store_get_set_same. }
      rewrite Hhistory. split; [|split].
      * right. exists version. split; [reflexivity|].
        split; [now rewrite Hhash|]. rewrite Hhash.
        destruct Hkind as [->| ->]; auto.
      * intros Hnd. rewrite map_app. simpl. apply NoDup_snoc; [exact Hnd|].
        now rewrite Hhash.
      * intros other Hne. rewrite Hm. simpl.
        now apply store_get_set_other.
Qed.

Lemma checkManifestVersion_appends_at_most_one_witness :
  NoDup (map hash
           (history_of
              (snd (window_runtime.checkManifestVersion (online "v2" [])
                      app_manifest loaded_v1))
              app_manifest)).
Proof.
  apply (proj1 (proj2 (checkManifestVersion_appends_at_most_one
                         (online "v2" []) app_manifest loaded_v1))).
  simpl. constructor; [intros [] | constructor].
Defined.

(** X16.  The hash [checkManifestVersion] returns is the hash of a
    stored version: [getParsedManifestVersion] finds a parsed manifest
    for it, so a session given this hash can be resolved. *)
Theorem returned_hash_is_stored (P : Platform) (manifestUrl : string)
  (w w1 : World) (h : string) :
  window_runtime.checkManifestVersion P manifestUrl w = (Return h, w1) ->
  exists version,
    In version (history_of w1 manifestUrl) /\ hash version = h /\
    sw_runtime.getParsedManifestVersion manifestUrl h w1 =
    (Return (Some (parsed version)), w1).
Proof.
  intros Hrun.
  assert (Hin : In h (map hash (history_of w1 manifestUrl))).
  { destruct (checkManifestVersion_cases P manifestUrl w)
      as (fetches & _ & Hcases).
    cbv zeta in Hcases. rewrite Hrun in Hcases.
    destruct Hcases as [(e0 & _ & E) | [(text & Hknown & E) | (text & _ & E)]].
    - discriminate.
    - injection E as Eh Ew. subst h w1. exact Hknown.
    - pose proof (performManifestUpdate_returned P manifestUrl
                    (window_runtime.generateHash P manifestUrl text) text
                    (history_of w manifestUrl)
                    (with_trace (trace w ++ fetches) w)) as Hreturned.
      destruct (fst (window_runtime.performManifestUpdate P manifestUrl
                       (window_runtime.generateHash P manifestUrl text) text
                       (history_of w manifestUrl)
                       (with_trace (trace w ++ fetches) w)))
        as [returned|e0]; [|discriminate].
      destruct (Hreturned returned eq_refl) as (version & Hhash & Hhistory).
      injection E as Eh Ew. subst h w1.
      unfold history_of at 1. rewrite Hhistory.
      rewrite map_app. apply in_or_app. right. left. exact Hhash. }
  destruct (find_by_hash _ _ Hin) as (version & Hfind & Hhash).
  exists version. split; [|split; [exact Hhash|]].
  - apply find_some in Hfind. tauto.
  - unfold sw_runtime.getParsedManifestVersion, bind, get, ret. simpl.
    unfold history_of in Hfind. now rewrite Hfind.
Qed.

Lemma returned_hash_is_stored_witness :
  let w1 := snd (window_runtime.checkManifestVersion (online "v2" [])
                   app_manifest loaded_v1) in
  exists version,
    In version (history_of w1 app_manifest) /\ hash version = H2 /\
    sw_runtime.getParsedManifestVersion app_manifest H2 w1 =
    (Return (Some (parsed version)), w1).
Proof.
  apply (returned_hash_is_stored (online "v2" []) app_manifest loaded_v1
           (snd (window_runtime.checkManifestVersion (online "v2" [])
                   app_manifest loaded_v1)) H2).
  reflexivity.
Defined.

(** ** [updateManifestAssociationForCurrentPage] *)


(** ** [makeManifestUrlsAbsolute] *)

Lemma prop_set_keys (V : Type) (object : list (string * V)) (key : string)
  (value : V) :
  Object_keys (prop_set object key value) =
  if includes (Object_keys object) key then Object_keys object
  else Object_keys object ++ [key].
Proof.
  unfold includes, Object_keys.
  induction object as [|[k v] rest IH]; simpl; [reflexivity|].
  destruct (String.eqb key k); simpl; [reflexivity|].
  rewrite IH. now destruct (existsb (String.eqb key) (map fst rest)).
Qed.

(** X18.  In the manifest [makeManifestUrlsAbsolute] returns, no two
    fallback keys are equal and the keys are exactly the resolved keys
    of the original; the cache section is the original one resolved
    entry by entry; and the network section has the wildcard if and only
    if the original has it or one of its other entries resolves to
    ['*']. *)
Theorem makeManifestUrlsAbsolute_wellformed (P : Platform) (baseUrl : string)
  (originalManifest : Manifest) :
  let manifest :=
    window_runtime.makeManifestUrlsAbsolute P baseUrl originalManifest in
  NoDup (Object_keys (fallback manifest)) /\
  (forall key, In key (Object_keys (fallback manifest)) <->
               exists original,
                 In original (Object_keys (fallback originalManifest)) /\
                 key = url_resolve P original baseUrl) /\
  cache manifest =
    map (fun url => url_resolve P url baseUrl) (cache originalManifest) /\
  (In "*" (network manifest) <->
   In "*" (network originalManifest) \/
   exists url, In url (network originalManifest) /\
               url_resolve P url baseUrl = "*").
Proof.
  cbv zeta. unfold window_runtime.makeManifestUrlsAbsolute. simpl.
  split; [|split; [|split]].
  - generalize (Object_keys (fallback originalManifest)).
    assert (Hgen : forall originals (acc : list (string * string)),
               NoDup (Object_keys acc) ->
               NoDup (Object_keys
                        (fold_left
                           (fun object key =>
                              prop_set object (url_resolve P key baseUrl)
                                (url_resolve P
                                   match prop_get (fallback originalManifest)
                                                  key with
                                   | Some value => value
                                   | None => "undefined"
                                   end baseUrl))
                           originals acc))).
    { induction originals as [|k rest IH]; intros acc Hacc; simpl; [exact Hacc|].
      apply IH. rewrite (prop_set_keys string).
      destruct (includes (Object_keys acc) (url_resolve P k baseUrl)) eqn:E;
        [exact Hacc|].
      apply NoDup_snoc; [exact Hacc | now apply includes_false]. }
    intros originals. apply Hgen. constructor.
  - generalize (Object_keys (fallback originalManifest)).
    assert (Hgen : forall originals (acc : list (string * string)) key,
               In key (Object_keys
                         (fold_left
                            (fun object key =>
                               prop_set object (url_resolve P key baseUrl)
                                 (url_resolve P
                                    match prop_get (fallback originalManifest)
                                                   key with
                                    | Some value => value
                                    | None => "undefined"
                                    end baseUrl))
                            originals acc)) <->
               In key (Object_keys acc) \/
               exists original, In original originals /\
                                key = url_resolve P original baseUrl).
    { induction originals as [|k rest IH]; intros acc key; simpl.
      - split; [auto | intros [H|(o & [] & _)]; exact H].
      - rewrite IH. rewrite (prop_set_keys string).
        destruct (includes (Object_keys acc) (url_resolve P k baseUrl)) eqn:E.
        + apply includes_In in E. split.
          * intros [H|(o & Ho & Hk)]; [now left | right; eauto].
          * intros [H|(o & [<-|Ho] & Hk)]; [now left | left; now subst
                                            | right; eauto].
        + rewrite in_app_iff. simpl. split.
          * intros [[H|[H|[]]]|(o & Ho & Hk)];
              [now left | right; eauto | right; eauto].
          * intros [H|(o & [<-|Ho] & Hk)];
              [left; now left | left; right; left; now subst | right; eauto]. }
    intros originals key. rewrite Hgen. simpl. tauto.
  - reflexivity.
  - rewrite in_map_iff. split.
    + intros (url & E & Hin). destruct (String.eqb_spec url "*") as [Heq|Hne].
      * left. now rewrite <- Heq.
      * right. eauto.
    + intros [Hin|(url & Hin & E)].
      * exists "*". split; [reflexivity | exact Hin].
      * exists url. split; [|exact Hin].
        destruct (String.eqb_spec url "*") as [Heq|Hne];
          [exact Heq | exact E].
Qed.

(* ================================================================== *)
(** * The entry point of the service-worker runtime *)
(* ================================================================== *)

Lemma cleanupOldCaches_frame (P : Platform) (w : World) :
  db_manifests (snd (sw_runtime.cleanupOldCaches P w)) = db_manifests w /\
  db_paths (snd (sw_runtime.cleanupOldCaches P w)) = db_paths w.
Proof.
  destruct (cleanupInProgress w) eqn:Hflag.
  - unfold sw_runtime.cleanupOldCaches. rewrite Hflag. auto.
  - destruct (cleanupOldCaches_world P w Hflag) as (w' & -> & _ & Hm & Hp & _).
    auto.
Qed.

(** X19.  [fetch(event)] completes exactly as [appCacheBehaviorForEvent]
    does: the clean-up it starts for a navigation changes neither the
    response nor a rejection.  For a request that is not a navigation
    the world is left as [appCacheBehaviorForEvent] leaves it, and in
    every case the version histories and the page associations are as
    before the call. *)
Theorem fetch_answers_as_the_resolver (P : Platform) (event : FetchEvent)
  (w : World) :
  let resolved := sw_runtime.appCacheBehaviorForEvent P event w in
  let run := sw_runtime.fetch P event w in
  fst run = fst resolved /\
  (req_mode (request event) <> "navigate" -> snd run = snd resolved) /\
  db_manifests (snd run) = db_manifests w /\
  db_paths (snd run) = db_paths w.
Proof.
  cbv zeta.
  destruct (appCacheBehaviorForEvent_frame P event w) as (Hm & Hp & _).
  unfold sw_runtime.fetch. unfold bind at 1 3 5 7.
  destruct (sw_runtime.appCacheBehaviorForEvent P event w) as [[response|e] w1].
  - simpl in Hm, Hp. unfold bind, ret.
    destruct (String.eqb_spec (req_mode (request event)) "navigate") as [E|E].
    + unfold sw_runtime.not_awaited. simpl.
      destruct (cleanupOldCaches_frame P w1) as [Hm' Hp'].
      split; [reflexivity|]. split; [intros Hne; contradiction|].
      split; congruence.
    + simpl. auto.
  - simpl in *. auto.
Qed.

(* ================================================================== *)

(* ================================================================== *)
(** * The clean-up in the worlds the two modules lead to *)
(* ================================================================== *)







(* ================================================================== *)
(** * The further properties on explicit inputs *)
(* ================================================================== *)

Lemma longestMatchingPrefix_is_longest_match_witness :
  In (sw_runtime.longestMatchingPrefix ["/a/"; "/a/b/"] "/a/b/c")
     ["/a/"; "/a/b/"] /\
  String.length "/a/" <=
  String.length (sw_runtime.longestMatchingPrefix ["/a/"; "/a/b/"] "/a/b/c").
Proof.
  destruct (longestMatchingPrefix_is_longest_match ["/a/"; "/a/b/"] "/a/b/c")
    as (_ & Hfound & Hmax).
  split.
  - apply Hfound. discriminate.
  - apply Hmax; [now left | reflexivity].
Defined.

Lemma addToCache_touches_one_cache_witness :
  storage_match "https://x/a.js" (Some H1)
    (caches (snd (window_runtime.addToCache (online "v2" []) H2
                    ["https://x/a.js"] (two_versions [])))) =
  storage_match "https://x/a.js" (Some H1) (caches (two_versions [])).
Proof.
  apply (proj2 (addToCache_touches_one_cache (online "v2" []) H2
                  ["https://x/a.js"] (two_versions []))).
  discriminate.
Defined.


Lemma fetch_answers_as_the_resolver_witness :
  snd (sw_runtime.fetch (online "v1" [tab "c1"])
         (event_for "https://x/a.js" "c1") loaded_v1) =
  snd (sw_runtime.appCacheBehaviorForEvent (online "v1" [tab "c1"])
         (event_for "https://x/a.js" "c1") loaded_v1).
Proof.
  apply (proj1 (proj2 (fetch_answers_as_the_resolver (online "v1" [tab "c1"])
                         (event_for "https://x/a.js" "c1") loaded_v1))).
  discriminate.
Defined.
